(** * Vitastor blockstore: read and write dispatch

    A shallow embedding of [blockstore.h], [blockstore_read.cpp] and
    [blockstore_write.cpp].  Machine integers are [Z] with the wrap-around
    written out, the two ordered maps ([dirty_db], [read_vec]) are key-sorted
    association lists whose iterators are positions, and every dispatch
    function threads one [machine]: the blockstore, the operation it is
    working on and the log of completion callbacks fired so far. *)

From Stdlib Require Import ZArith List Bool Lia Sorted.
Import ListNotations.
Open Scope Z_scope.

(** ** Machine integers *)

Definition u32 (x : Z) : Z := x mod 2 ^ 32.
Definition u64 (x : Z) : Z := x mod 2 ^ 64.
Definition UINT64_MAX : Z := 2 ^ 64 - 1.

(** ** Outcomes of a dispatch function

    [Undefined] is C++ undefined behaviour (an iterator moved before
    [begin()], a dereferenced [end()], an index past an array, a modulo by
    zero); [Throws] is the [std::runtime_error] of [dequeue_read]. *)

Inductive result (A : Type) : Type :=
| Ok (a : A)
| Undefined
| Throws.

Arguments Ok {A} a.
Arguments Undefined {A}.
Arguments Throws {A}.

(** ** blockstore.h: constants *)

Definition ST_IN_FLIGHT : Z := 1.
Definition ST_J_WRITTEN : Z := 2.
Definition ST_J_SYNCED : Z := 3.
Definition ST_J_STABLE : Z := 4.
Definition ST_J_MOVED : Z := 5.
Definition ST_J_MOVE_SYNCED : Z := 6.
Definition ST_D_WRITTEN : Z := 16.
Definition ST_D_SYNCED : Z := 17.
Definition ST_D_META_WRITTEN : Z := 18.
Definition ST_D_META_SYNCED : Z := 19.
Definition ST_D_STABLE : Z := 20.
Definition ST_D_META_MOVED : Z := 21.
Definition ST_D_META_COMMITTED : Z := 22.
Definition ST_DEL_WRITTEN : Z := 23.
Definition ST_DEL_SYNCED : Z := 24.
Definition ST_DEL_STABLE : Z := 25.
Definition ST_DEL_MOVED : Z := 26.
Definition ST_CURRENT : Z := 32.

Definition IS_STABLE (st : Z) : bool :=
  (st =? 4) || (st =? 5) || (st =? 6) || (st =? 20) || (st =? 21) ||
  (st =? 22) || (st =? 32) || (st =? 24) || (st =? 25).

Definition IS_JOURNAL (st : Z) : bool := (2 <=? st) && (st <=? 6).

Definition OP_READ : Z := 1.
Definition OP_READ_DIRTY : Z := 2.
Definition OP_WRITE : Z := 3.
Definition OP_SYNC : Z := 4.
Definition OP_STABLE : Z := 5.
Definition OP_DELETE : Z := 6.
Definition OP_TYPE_MASK : Z := 7.

Definition WAIT_SQE : Z := 1.
Definition WAIT_IN_FLIGHT : Z := 2.
Definition WAIT_JOURNAL : Z := 3.
Definition WAIT_JOURNAL_BUFFER : Z := 4.

(** [ENOSPC] of [errno.h]. *)
Definition ENOSPC : Z := 28.

(** ** blockstore.h: identifiers and index entries *)

Record object_id : Type := { inode : Z; stripe : Z }.

(** [operator ==] and [operator <] on [object_id]. *)
Definition oid_eqb (a b : object_id) : bool :=
  (inode a =? inode b) && (stripe a =? stripe b).

Definition oid_ltb (a b : object_id) : bool :=
  (inode a <? inode b) || ((inode a =? inode b) && (stripe a <? stripe b)).

Record clean_entry : Type :=
  { clean_version : Z; clean_state : Z; clean_location : Z }.

Record obj_ver_id : Type := { oid : object_id; version : Z }.

(** [operator <] on [obj_ver_id]. *)
Definition ov_ltb (a b : obj_ver_id) : bool :=
  oid_ltb (oid a) (oid b) ||
  (oid_eqb (oid a) (oid b) && (version a <? version b)).

Record dirty_entry : Type :=
  { dirty_state : Z;
    dirty_flags : Z;
    dirty_location : Z;
    dirty_offset : Z;
    dirty_size : Z }.

(** ** Buffers and I/O vectors

    A pointer is a base buffer and a byte displacement: the caller's
    [op->buf] or the journal's [sector_buf]. *)

Inductive ptr : Type :=
| OpBuf (disp : Z)
| SectorBuf (disp : Z).

Record iovec : Type := { iov_base : ptr; iov_len : Z }.

(** [memset(buf + at, 0, n)] on the caller's buffer.  The buffer is the list
    of its bytes; bytes past its end belong to nobody in this model. *)
Fixpoint memset_from (i : Z) (buf : list Z) (at_ n : Z) : list Z :=
  match buf with
  | [] => []
  | b :: rest =>
      (if (at_ <=? i) && (i <? at_ + n) then 0 else b)
        :: memset_from (i + 1) rest at_ n
  end.

Definition memset (buf : list Z) (at_ n : Z) : list Z := memset_from 0 buf at_ n.

(** ** blockstore.h: operations *)

Record blockstore_operation : Type :=
  { op_flags : Z;
    op_oid : object_id;
    op_version : Z;
    op_offset : Z;
    op_len : Z;
    op_buf : list Z;
    op_retval : Z;
    op_read_vec : list (Z * iovec);
    op_pending_ops : Z;
    op_wait_for : Z;
    op_wait_detail : Z;
    op_used_journal_sector : Z }.

Definition set_buf (o : blockstore_operation) (b : list Z) :=
  {| op_flags := op_flags o; op_oid := op_oid o; op_version := op_version o;
     op_offset := op_offset o; op_len := op_len o; op_buf := b;
     op_retval := op_retval o; op_read_vec := op_read_vec o;
     op_pending_ops := op_pending_ops o; op_wait_for := op_wait_for o;
     op_wait_detail := op_wait_detail o;
     op_used_journal_sector := op_used_journal_sector o |}.

Definition set_retval (o : blockstore_operation) (r : Z) :=
  {| op_flags := op_flags o; op_oid := op_oid o; op_version := op_version o;
     op_offset := op_offset o; op_len := op_len o; op_buf := op_buf o;
     op_retval := r; op_read_vec := op_read_vec o;
     op_pending_ops := op_pending_ops o; op_wait_for := op_wait_for o;
     op_wait_detail := op_wait_detail o;
     op_used_journal_sector := op_used_journal_sector o |}.

Definition set_read_vec (o : blockstore_operation) (v : list (Z * iovec)) :=
  {| op_flags := op_flags o; op_oid := op_oid o; op_version := op_version o;
     op_offset := op_offset o; op_len := op_len o; op_buf := op_buf o;
     op_retval := op_retval o; op_read_vec := v;
     op_pending_ops := op_pending_ops o; op_wait_for := op_wait_for o;
     op_wait_detail := op_wait_detail o;
     op_used_journal_sector := op_used_journal_sector o |}.

Definition set_pending_ops (o : blockstore_operation) (n : Z) :=
  {| op_flags := op_flags o; op_oid := op_oid o; op_version := op_version o;
     op_offset := op_offset o; op_len := op_len o; op_buf := op_buf o;
     op_retval := op_retval o; op_read_vec := op_read_vec o;
     op_pending_ops := n; op_wait_for := op_wait_for o;
     op_wait_detail := op_wait_detail o;
     op_used_journal_sector := op_used_journal_sector o |}.

Definition set_wait_for (o : blockstore_operation) (w : Z) :=
  {| op_flags := op_flags o; op_oid := op_oid o; op_version := op_version o;
     op_offset := op_offset o; op_len := op_len o; op_buf := op_buf o;
     op_retval := op_retval o; op_read_vec := op_read_vec o;
     op_pending_ops := op_pending_ops o; op_wait_for := w;
     op_wait_detail := op_wait_detail o;
     op_used_journal_sector := op_used_journal_sector o |}.

Definition set_wait_detail (o : blockstore_operation) (d : Z) :=
  {| op_flags := op_flags o; op_oid := op_oid o; op_version := op_version o;
     op_offset := op_offset o; op_len := op_len o; op_buf := op_buf o;
     op_retval := op_retval o; op_read_vec := op_read_vec o;
     op_pending_ops := op_pending_ops o; op_wait_for := op_wait_for o;
     op_wait_detail := d;
     op_used_journal_sector := op_used_journal_sector o |}.

Definition set_used_journal_sector (o : blockstore_operation) (s : Z) :=
  {| op_flags := op_flags o; op_oid := op_oid o; op_version := op_version o;
     op_offset := op_offset o; op_len := op_len o; op_buf := op_buf o;
     op_retval := op_retval o; op_read_vec := op_read_vec o;
     op_pending_ops := op_pending_ops o; op_wait_for := op_wait_for o;
     op_wait_detail := op_wait_detail o;
     op_used_journal_sector := s |}.

(** ** [std::map<uint64_t, iovec> read_vec]

    The map is the list of its nodes in key order.  [rv_lower_bound] is the
    position of the first node whose key is not below [k]; position
    [length] is [end()]. *)

Definition read_vec_t : Type := list (Z * iovec).

Fixpoint rv_lower_bound (k : Z) (m : read_vec_t) : nat :=
  match m with
  | [] => O
  | (k', _) :: rest => if k' <? k then S (rv_lower_bound k rest) else O
  end.

(** [read_vec[k] = v]. *)
Fixpoint rv_insert (k : Z) (v : iovec) (m : read_vec_t) : read_vec_t :=
  match m with
  | [] => [(k, v)]
  | (k', v') :: rest =>
      if k <? k' then (k, v) :: (k', v') :: rest
      else if k =? k' then (k, v) :: rest
      else (k', v') :: rv_insert k v rest
  end.

(** ** The kernel submission ring *)

(** Modelled from the spec: [ringloop.h] and the io_uring library are not
    among the sources.  A slot of the ring is blank until an
    [io_uring_prep_*] call fills it with a read or a write request. *)
Inductive io_uring_sqe : Type :=
| SQE_BLANK
| SQE_READV (fd : Z) (iov : iovec) (off : Z) (owner : Z)
| SQE_WRITEV (fd : Z) (iov : iovec) (off : Z) (owner : Z).

(** Modelled from the spec: [ringloop.h] and the io_uring library are not
    among the sources.  The ring holds the slots handed out since the last
    submission, oldest first, so [sq.sqe_tail] is [sqe_head] plus their
    number.  [get_sqe] fails when no slot is free ("no free kernel
    submission slot"), resetting the tail drops the slots handed out after
    it ("rolling back (resetting the ring tail)"), and [submit] hands the
    slots to the kernel or reports a negative error code. *)
Record ring_t : Type :=
  { sqe_head : Z;
    sq_entries : Z;
    sq : list io_uring_sqe;
    submit_errno : Z;
    submitted : list io_uring_sqe }.

Definition sqe_tail (r : ring_t) : Z := sqe_head r + Z.of_nat (length (sq r)).

Definition set_sq (r : ring_t) (l : list io_uring_sqe) : ring_t :=
  {| sqe_head := sqe_head r; sq_entries := sq_entries r; sq := l;
     submit_errno := submit_errno r; submitted := submitted r |}.

(** Modelled from the spec: [get_sqe()] of [ringloop.h], which is not among
    the sources.  The position of the new slot and the ring holding it, or
    [None] for the null pointer of a full ring. *)
Definition get_sqe (r : ring_t) : option (nat * ring_t) :=
  if Z.of_nat (length (sq r)) <? sq_entries r
  then Some (length (sq r), set_sq r (sq r ++ [SQE_BLANK]))
  else None.

Fixpoint list_set {A : Type} (l : list A) (n : nat) (x : A) : list A :=
  match l, n with
  | [], _ => []
  | _ :: rest, O => x :: rest
  | y :: rest, S n' => y :: list_set rest n' x
  end.

(** [io_uring_prep_readv] / [io_uring_prep_writev] on the slot at [slot]. *)
Definition prep (r : ring_t) (slot : nat) (e : io_uring_sqe) : ring_t :=
  set_sq r (list_set (sq r) slot e).

(** [ring->sq.sqe_tail = pos]: the slots handed out after [pos] are gone. *)
Definition set_sqe_tail (r : ring_t) (pos : Z) : ring_t :=
  set_sq r (firstn (Z.to_nat (pos - sqe_head r)) (sq r)).

(** Modelled from the spec: [ringloop->submit()] of [ringloop.h], which is
    not among the sources.  [submit_errno] is the error the kernel is about
    to report, 0 for none. *)
Definition submit (r : ring_t) : Z * ring_t :=
  if submit_errno r =? 0
  then (Z.of_nat (length (sq r)),
        {| sqe_head := sqe_tail r; sq_entries := sq_entries r; sq := [];
           submit_errno := 0; submitted := submitted r ++ sq r |})
  else (- submit_errno r, r).

(** ** The data-region allocator *)

(** Modelled from the spec: [allocator.h] is not among the sources.  "A
    bitmap allocator over data-region blocks": one bit per block, set when
    the block is taken. *)
Definition allocator : Type := list bool.

Fixpoint find_free_from (i : Z) (a : allocator) : Z :=
  match a with
  | [] => UINT64_MAX
  | b :: rest => if b then find_free_from (i + 1) rest else i
  end.

(** Modelled from the spec: [allocator_find_free] of [allocator.h], which
    is not among the sources.  The first free block, or [(uint64_t)-1] when
    none is free, the value [dequeue_write] tests for. *)
Definition allocator_find_free (a : allocator) : Z := find_free_from 0 a.

(** Modelled from the spec: [allocator_set] of [allocator.h], which is not
    among the sources. *)
Definition allocator_set (a : allocator) (loc : Z) (v : bool) : allocator :=
  list_set a (Z.to_nat loc) v.

(** ** The journal *)

(** Modelled from the spec: [blockstore_journal.h] is not among the sources.
    The entry has the fields [dequeue_write] initialises, "{crc32, magic,
    type, size, crc32_prev, oid, version, offset, len}". *)
Record journal_entry_small_write : Type :=
  { e_crc32 : Z;
    e_magic : Z;
    e_type : Z;
    e_size : Z;
    e_crc32_prev : Z;
    e_oid : object_id;
    e_version : Z;
    e_offset : Z;
    e_len : Z }.

(** Modelled from the spec: [blockstore_journal.h] is not among the sources.
    "Common header (24 bytes)" and "SMALL_WRITE extends by {oid(16),
    version(8), offset(4), len(4)}". *)
Definition sizeof_journal_entry_small_write : Z := 56.

Definition set_e_crc32 (e : journal_entry_small_write) (c : Z) :=
  {| e_crc32 := c; e_magic := e_magic e; e_type := e_type e;
     e_size := e_size e; e_crc32_prev := e_crc32_prev e; e_oid := e_oid e;
     e_version := e_version e; e_offset := e_offset e; e_len := e_len e |}.

(** Modelled from the spec: [blockstore_journal.h] is not among the sources.
    The two fields [dequeue_write] uses of a sector buffer's record. *)
Record journal_sector_info_t : Type :=
  { sector_offset : Z; usage_count : Z }.

(** The sector buffers hold typed entries: [sector_buf] maps the byte
    displacement an entry was stored at to the entry.  A store or a
    [memset] drops every entry it overlaps. *)
Definition sector_buf_t : Type := list (Z * journal_entry_small_write).

Definition sector_clear (b : sector_buf_t) (at_ n : Z) : sector_buf_t :=
  filter (fun c => negb ((fst c <? at_ + n) &&
                         (at_ <? fst c + sizeof_journal_entry_small_write))) b.

Definition sector_store (b : sector_buf_t) (at_ : Z)
    (e : journal_entry_small_write) : sector_buf_t :=
  (at_, e) :: sector_clear b at_ sizeof_journal_entry_small_write.

Fixpoint sector_load (b : sector_buf_t) (at_ : Z)
    : option journal_entry_small_write :=
  match b with
  | [] => None
  | (a, e) :: rest => if a =? at_ then Some e else sector_load rest at_
  end.

(** Modelled from the spec: [blockstore_journal.h] is not among the sources.
    The fields are the ones [dequeue_write] and [fulfill_read_push] use,
    all 64-bit ([uint64_t next_pos = journal.next_free]) but the 32-bit
    checksum. *)
Record journal_t : Type :=
  { journal_fd : Z;
    journal_offset : Z;
    journal_len : Z;
    next_free : Z;
    used_start : Z;
    crc32_last : Z;
    sector_buf : sector_buf_t;
    sector_info : list journal_sector_info_t;
    sector_count : Z;
    cur_sector : Z;
    in_sector_pos : Z }.

Definition set_next_free (j : journal_t) (x : Z) :=
  {| journal_fd := journal_fd j; journal_offset := journal_offset j;
     journal_len := journal_len j; next_free := x;
     used_start := used_start j; crc32_last := crc32_last j;
     sector_buf := sector_buf j; sector_info := sector_info j;
     sector_count := sector_count j; cur_sector := cur_sector j;
     in_sector_pos := in_sector_pos j |}.

Definition set_crc32_last (j : journal_t) (x : Z) :=
  {| journal_fd := journal_fd j; journal_offset := journal_offset j;
     journal_len := journal_len j; next_free := next_free j;
     used_start := used_start j; crc32_last := x;
     sector_buf := sector_buf j; sector_info := sector_info j;
     sector_count := sector_count j; cur_sector := cur_sector j;
     in_sector_pos := in_sector_pos j |}.

Definition set_sector_buf (j : journal_t) (x : sector_buf_t) :=
  {| journal_fd := journal_fd j; journal_offset := journal_offset j;
     journal_len := journal_len j; next_free := next_free j;
     used_start := used_start j; crc32_last := crc32_last j;
     sector_buf := x; sector_info := sector_info j;
     sector_count := sector_count j; cur_sector := cur_sector j;
     in_sector_pos := in_sector_pos j |}.

Definition set_sector_info (j : journal_t) (x : list journal_sector_info_t) :=
  {| journal_fd := journal_fd j; journal_offset := journal_offset j;
     journal_len := journal_len j; next_free := next_free j;
     used_start := used_start j; crc32_last := crc32_last j;
     sector_buf := sector_buf j; sector_info := x;
     sector_count := sector_count j; cur_sector := cur_sector j;
     in_sector_pos := in_sector_pos j |}.

Definition set_cur_sector (j : journal_t) (x : Z) :=
  {| journal_fd := journal_fd j; journal_offset := journal_offset j;
     journal_len := journal_len j; next_free := next_free j;
     used_start := used_start j; crc32_last := crc32_last j;
     sector_buf := sector_buf j; sector_info := sector_info j;
     sector_count := sector_count j; cur_sector := x;
     in_sector_pos := in_sector_pos j |}.

Definition set_in_sector_pos (j : journal_t) (x : Z) :=
  {| journal_fd := journal_fd j; journal_offset := journal_offset j;
     journal_len := journal_len j; next_free := next_free j;
     used_start := used_start j; crc32_last := crc32_last j;
     sector_buf := sector_buf j; sector_info := sector_info j;
     sector_count := sector_count j; cur_sector := cur_sector j;
     in_sector_pos := x |}.

(** ** blockstore.h: the blockstore *)

Definition dirty_db_t : Type := list (obj_ver_id * dirty_entry).

Record blockstore : Type :=
  { object_db : list (object_id * clean_entry);
    dirty_db : dirty_db_t;
    in_process_ops : list Z;
    block_order : Z;
    block_size : Z;
    data_alloc : allocator;
    data_fd : Z;
    data_offset : Z;
    journal : journal_t;
    ring : ring_t }.

Definition set_dirty_db (b : blockstore) (x : dirty_db_t) :=
  {| object_db := object_db b; dirty_db := x;
     in_process_ops := in_process_ops b; block_order := block_order b;
     block_size := block_size b; data_alloc := data_alloc b;
     data_fd := data_fd b; data_offset := data_offset b;
     journal := journal b; ring := ring b |}.

Definition set_in_process_ops (b : blockstore) (x : list Z) :=
  {| object_db := object_db b; dirty_db := dirty_db b;
     in_process_ops := x; block_order := block_order b;
     block_size := block_size b; data_alloc := data_alloc b;
     data_fd := data_fd b; data_offset := data_offset b;
     journal := journal b; ring := ring b |}.

Definition set_data_alloc (b : blockstore) (x : allocator) :=
  {| object_db := object_db b; dirty_db := dirty_db b;
     in_process_ops := in_process_ops b; block_order := block_order b;
     block_size := block_size b; data_alloc := x;
     data_fd := data_fd b; data_offset := data_offset b;
     journal := journal b; ring := ring b |}.

Definition set_journal (b : blockstore) (x : journal_t) :=
  {| object_db := object_db b; dirty_db := dirty_db b;
     in_process_ops := in_process_ops b; block_order := block_order b;
     block_size := block_size b; data_alloc := data_alloc b;
     data_fd := data_fd b; data_offset := data_offset b;
     journal := x; ring := ring b |}.

Definition set_ring (b : blockstore) (x : ring_t) :=
  {| object_db := object_db b; dirty_db := dirty_db b;
     in_process_ops := in_process_ops b; block_order := block_order b;
     block_size := block_size b; data_alloc := data_alloc b;
     data_fd := data_fd b; data_offset := data_offset b;
     journal := journal b; ring := x |}.

(** [object_db.find(oid)]. *)
Fixpoint object_db_find (k : object_id) (db : list (object_id * clean_entry))
    : option clean_entry :=
  match db with
  | [] => None
  | (k', c) :: rest => if oid_eqb k' k then Some c else object_db_find k rest
  end.

(** [dirty_db.upper_bound(k)]: the position of the first node whose key is
    above [k]; [length db] is [end()]. *)
Fixpoint dirty_upper_bound (k : obj_ver_id) (db : dirty_db_t) : nat :=
  match db with
  | [] => O
  | (k', _) :: rest => if ov_ltb k k' then O else S (dirty_upper_bound k rest)
  end.

(** [dirty_db.find(k)]: the position of the node with key [k], [None] for
    [end()]. *)
Fixpoint dirty_find_from (i : nat) (k : obj_ver_id) (db : dirty_db_t)
    : option nat :=
  match db with
  | [] => None
  | (k', _) :: rest =>
      if negb (ov_ltb k k') && negb (ov_ltb k' k) then Some i
      else dirty_find_from (S i) k rest
  end.

Definition dirty_find (k : obj_ver_id) (db : dirty_db_t) : option nat :=
  dirty_find_from O k db.

(** ** The machine a dispatch function runs on

    [op] is the operation behind the pointer the function receives,
    [op_addr] that pointer, and [callbacks] the operations handed to
    [op->callback], each as it was when the callback was called. *)

Record machine : Type :=
  { bs : blockstore;
    op : blockstore_operation;
    op_addr : Z;
    callbacks : list blockstore_operation }.

Definition with_op (m : machine) (o : blockstore_operation) : machine :=
  {| bs := bs m; op := o; op_addr := op_addr m; callbacks := callbacks m |}.

Definition with_bs (m : machine) (b : blockstore) : machine :=
  {| bs := b; op := op m; op_addr := op_addr m; callbacks := callbacks m |}.

(** [op->callback(op)]. *)
Definition callback (m : machine) : machine :=
  {| bs := bs m; op := op m; op_addr := op_addr m;
     callbacks := callbacks m ++ [op m] |}.

Definition int32 (x : Z) : Z := (x + 2 ^ 31) mod 2 ^ 32 - 2 ^ 31.

(** [std::set::insert]. *)
Definition set_insert (x : Z) (s : list Z) : list Z :=
  if existsb (Z.eqb x) s then s else s ++ [x].

(** ** blockstore_read.cpp *)

Definition is_deleted (item_state : Z) : bool :=
  (item_state =? ST_DEL_WRITTEN) || (item_state =? ST_DEL_SYNCED) ||
  (item_state =? ST_DEL_MOVED).

(** [blockstore::fulfill_read_push]. *)
Definition fulfill_read_push (m : machine)
    (item_start item_state item_version item_location cur_start cur_end : Z)
    : Z * machine :=
  let read_op := op m in
  if cur_start <? cur_end then
    if item_state =? ST_IN_FLIGHT then
      (-1, with_op m (set_wait_detail (set_wait_for read_op WAIT_IN_FLIGHT)
                                      item_version))
    else if is_deleted item_state then
      (0, with_op m (set_buf read_op
                       (memset (op_buf read_op) (cur_start - op_offset read_op)
                               (u32 (cur_end - cur_start)))))
    else
      match get_sqe (ring (bs m)) with
      | None => (-1, with_op m (set_wait_for read_op WAIT_SQE))
      | Some (sqe, r) =>
          let iov := {| iov_base := OpBuf (cur_start - op_offset read_op);
                        iov_len := u32 (cur_end - cur_start) |} in
          let read_op := set_read_vec read_op
                           (rv_insert cur_start iov (op_read_vec read_op)) in
          let r := prep r sqe
                     (SQE_READV
                        (if IS_JOURNAL item_state
                         then journal_fd (journal (bs m)) else data_fd (bs m))
                        iov
                        (u64 ((if IS_JOURNAL item_state
                               then journal_offset (journal (bs m))
                               else data_offset (bs m))
                              + item_location + cur_start - item_start))
                        (op_addr m)) in
          (0, with_op (with_bs m (set_ring (bs m) r)) read_op)
      end
  else (0, m).

(** The [while] loop of [blockstore::fulfill_read] and the call after it.
    [nodes] are the nodes of [read_vec] from [fulfill_near] to [end()].
    Map iterators survive insertion, and the loop inserts only keys below
    [fulfill_near->first] (see [rv_insert_below]), so these nodes stay the
    ones the iterator goes through. *)
Fixpoint fulfill_read_loop (nodes : read_vec_t) (m : machine)
    (item_start item_state item_version item_location cur_start item_end : Z)
    : Z * machine :=
  match nodes with
  | (first, second) :: rest =>
      if first <? item_end then
        let '(r, m1) := fulfill_read_push m item_start item_state item_version
                          item_location cur_start (u32 first) in
        if r <? 0 then (-1, m1)
        else fulfill_read_loop rest m1 item_start item_state item_version
               item_location (u32 (first + iov_len second)) item_end
      else
        let '(r, m1) := fulfill_read_push m item_start item_state item_version
                          item_location cur_start item_end in
        if r <? 0 then (-1, m1) else (0, m1)
  | [] =>
      let '(r, m1) := fulfill_read_push m item_start item_state item_version
                        item_location cur_start item_end in
      if r <? 0 then (-1, m1) else (0, m1)
  end.

(** The position [fulfill_near] has when the loop starts. *)
Definition fulfill_near_start (rv : read_vec_t) (cur_start : Z) : nat :=
  match rv_lower_bound cur_start rv with
  | O => O
  | S p =>
      match nth_error rv p with
      | Some (first, second) =>
          if u64 (first + iov_len second) <=? cur_start then S p else p
      | None => S p
      end
  end.

(** [blockstore::fulfill_read]. *)
Definition fulfill_read (m : machine)
    (item_start item_end item_state item_version item_location : Z)
    : Z * machine :=
  let read_op := op m in
  let cur_start := item_start in
  let op_end := u32 (op_offset read_op + op_len read_op) in
  if (cur_start <? op_end) && (op_offset read_op <? item_end) then
    let cur_start :=
      if cur_start <? op_offset read_op then op_offset read_op else cur_start in
    let item_end := if op_end <? item_end then op_end else item_end in
    let fulfill_near := fulfill_near_start (op_read_vec read_op) cur_start in
    fulfill_read_loop (skipn fulfill_near (op_read_vec read_op)) m
      item_start item_state item_version item_location cur_start item_end
  else (0, m).

(** The [while (dirty_it->first.oid == read_op->oid)] loop of
    [blockstore::dequeue_read], with [dirty_it] at position [i].  The result
    is [-1] when a [fulfill_read] asked to wait.  [dirty_it--] at
    [begin()] is undefined. *)
Fixpoint dirty_walk (i : nat) (m : machine) : result (Z * machine) :=
  match nth_error (dirty_db (bs m)) i with
  | None => Undefined
  | Some (key, dirty) =>
      if oid_eqb (oid key) (op_oid (op m)) then
        let '(r, m1) :=
          if (Z.land (op_flags (op m)) OP_TYPE_MASK =? OP_READ_DIRTY)
             || IS_STABLE (dirty_state dirty)
          then fulfill_read m (dirty_offset dirty)
                 (u32 (dirty_offset dirty + dirty_size dirty))
                 (dirty_state dirty) (version key) (dirty_location dirty)
          else (0, m) in
        if r <? 0 then Ok (-1, m1)
        else match i with
             | O => Undefined
             | S j => dirty_walk j m1
             end
      else Ok (0, m)
  end.

(** "region is not allocated - return zeroes". *)
Definition return_zeroes (m : machine) : machine :=
  let read_op := op m in
  let read_op := set_buf read_op (memset (op_buf read_op) 0 (op_len read_op)) in
  let read_op := set_retval read_op (int32 (op_len read_op)) in
  callback (with_op m read_op).

(** "need to wait. undo added requests, don't dequeue op". *)
Definition undo_requests (m : machine) (prev_sqe_pos : Z) : machine :=
  with_op (with_bs m (set_ring (bs m) (set_sqe_tail (ring (bs m)) prev_sqe_pos)))
          (set_read_vec (op m) []).

(** [blockstore::dequeue_read]. *)
Definition dequeue_read (m : machine) : result (Z * machine) :=
  let clean_it := object_db_find (op_oid (op m)) (object_db (bs m)) in
  match dirty_upper_bound {| oid := op_oid (op m); version := UINT64_MAX |}
                          (dirty_db (bs m)) with
  | O => Undefined
  | S dirty_it =>
      let clean_found := match clean_it with Some _ => true | None => false end in
      let dirty_found :=
        match nth_error (dirty_db (bs m)) dirty_it with
        | Some (key, _) => oid_eqb (oid key) (op_oid (op m))
        | None => false
        end in
      if negb clean_found && negb dirty_found then Ok (1, return_zeroes m)
      else
        let prev_sqe_pos := sqe_tail (ring (bs m)) in
        match (if dirty_found then dirty_walk dirty_it m else Ok (0, m)) with
        | Undefined => Undefined
        | Throws => Throws
        | Ok (r, m1) =>
            if r <? 0 then Ok (0, undo_requests m1 prev_sqe_pos)
            else
              let '(r2, m2) :=
                match clean_it with
                | Some clean =>
                    fulfill_read m1 0 (block_size (bs m1)) ST_CURRENT 0
                                 (clean_location clean)
                | None => (0, m1)
                end in
              if r2 <? 0 then Ok (0, undo_requests m2 prev_sqe_pos)
              else if (length (op_read_vec (op m2)) =? 0)%nat
              then Ok (1, return_zeroes m2)
              else
                let read_op := set_retval (op m2) 0 in
                let read_op :=
                  set_pending_ops read_op
                    (int32 (Z.of_nat (length (op_read_vec read_op)))) in
                let b := set_in_process_ops (bs m2)
                           (set_insert (op_addr m2) (in_process_ops (bs m2))) in
                let '(ret, r) := submit (ring b) in
                let m3 := with_op (with_bs m2 (set_ring b r)) read_op in
                if ret <? 0 then Throws else Ok (1, m3)
        end
  end.

(** ** blockstore_write.cpp *)

Definition bind {A B : Type} (x : result A) (k : A -> result B) : result B :=
  match x with
  | Ok a => k a
  | Undefined => Undefined
  | Throws => Throws
  end.

Notation "'do' x <- e ; k" := (bind e (fun x => k))
  (at level 10, x pattern, e at level 100, k at level 200).

(** Dereferencing what may be [end()] or lie past an array. *)
Definition deref {A : Type} (x : option A) : result A :=
  match x with
  | Some a => Ok a
  | None => Undefined
  end.

(** [a % b] on unsigned operands. *)
Definition umod (a b : Z) : result Z :=
  if b =? 0 then Undefined else Ok (a mod b).

Definition set_location_state (d : dirty_entry) (loc st : Z) : dirty_entry :=
  {| dirty_state := st; dirty_flags := dirty_flags d; dirty_location := loc;
     dirty_offset := dirty_offset d; dirty_size := dirty_size d |}.

(** [dirty_it->second.location = loc; dirty_it->second.state = st]. *)
Definition dirty_assign (db : dirty_db_t) (dirty_it : option nat) (loc st : Z)
    : result dirty_db_t :=
  do i <- deref dirty_it;
  do kd <- deref (nth_error db i);
  Ok (list_set db i (fst kd, set_location_state (snd kd) loc st)).

Definition set_sector_offset (s : journal_sector_info_t) (x : Z) :=
  {| sector_offset := x; usage_count := usage_count s |}.

Definition add_usage (s : journal_sector_info_t) :=
  {| sector_offset := sector_offset s; usage_count := usage_count s + 1 |}.

(** [journal.sector_info[i]] as an lvalue handed to [f]. *)
Definition sector_info_update (j : journal_t) (i : Z)
    (f : journal_sector_info_t -> journal_sector_info_t) : result journal_t :=
  do s <- deref (nth_error (sector_info j) (Z.to_nat i));
  Ok (set_sector_info j (list_set (sector_info j) (Z.to_nat i) (f s))).

Section Write.

(** Constants and the checksum of [blockstore_journal.h], and the two
    "submitted" states, none of which the sources define. *)
Variables ST_D_SUBMITTED ST_J_SUBMITTED JOURNAL_MAGIC JE_SMALL_WRITE : Z.
Variable je_crc32 : journal_entry_small_write -> Z.

(** Modelled from the spec: the macro [BS_GET_SQE] is not among the sources.
    "Submission of a kernel I/O may fail (submission ring full) - the op is
    parked with wait_for=SQE"; a dispatch attempt reserves its slots
    "rolling back (resetting the ring tail) if any reservation inside the op
    fails".  [inl] is the [return 0] of the macro. *)
Definition BS_GET_SQE (m : machine) (prev_sqe_pos : Z)
    : (Z * machine) + (nat * machine) :=
  match get_sqe (ring (bs m)) with
  | None =>
      inl (0, with_op (with_bs m (set_ring (bs m)
                                    (set_sqe_tail (ring (bs m)) prev_sqe_pos)))
                      (set_wait_for (op m) WAIT_SQE))
  | Some (sqe, r) => inr (sqe, with_bs m (set_ring (bs m) r))
  end.

(** The test [512 - journal.in_sector_pos < sizeof(struct
    journal_entry_small_write)]. *)
Definition sector_is_full (j : journal_t) : bool :=
  u64 (512 - in_sector_pos j) <? sizeof_journal_entry_small_write.

(** "Big (redirect) write": the first branch of [blockstore::dequeue_write]. *)
Definition dequeue_write_big (m : machine) (dirty_it : option nat)
    : result (Z * machine) :=
  let loc := allocator_find_free (data_alloc (bs m)) in
  if loc =? UINT64_MAX then
    Ok (1, callback (with_op m (set_retval (op m) (- ENOSPC))))
  else
    match BS_GET_SQE m (sqe_tail (ring (bs m))) with
    | inl parked => Ok parked
    | inr (sqe, m) =>
        let b := bs m in
        do db <- dirty_assign (dirty_db b) dirty_it
                   (u64 (Z.shiftl loc (block_order b))) ST_D_SUBMITTED;
        let b := set_dirty_db b db in
        let b := set_data_alloc b (allocator_set (data_alloc b) loc true) in
        let iov := {| iov_base := OpBuf 0; iov_len := op_len (op m) |} in
        let b := set_ring b
                   (prep (ring b) sqe
                      (SQE_WRITEV (data_fd b) iov
                         (u64 (data_offset b + u64 (Z.shiftl loc (block_order b))))
                         (op_addr m))) in
        let o := set_used_journal_sector (set_pending_ops (op m) 1) 0 in
        Ok (1, with_op (with_bs m b) o)
    end.

(** Lines 38-57: the position [next_pos] the journal space check arrives
    at. *)
Definition reservation_end (j : journal_t) (len : Z) : Z :=
  let next_pos := next_free j in
  let next_pos :=
    if sector_is_full j then
      let next_pos := u64 (next_pos + 512) in
      if next_pos >=? journal_len j then 512 else next_pos
    else next_pos in
  u64 ((if u64 (journal_len j - next_pos) <? len then 512 else next_pos) + len).

(** Lines 46-52: "check if we have an unused memory buffer for the journal
    sector". *)
Definition sector_buffer_busy (j : journal_t) : result bool :=
  if sector_is_full j then
    do i <- umod (u64 (cur_sector j + 1)) (sector_count j);
    do s <- deref (nth_error (sector_info j) (Z.to_nat i));
    Ok (usage_count s >? 0)
  else Ok false.

(** "Move to the next journal sector": lines 70-79. *)
Definition next_sector (j : journal_t) : result journal_t :=
  if sector_is_full j then
    do i <- umod (u64 (cur_sector j + 1)) (sector_count j);
    let j := set_cur_sector j i in
    do j <- sector_info_update j (cur_sector j)
              (fun s => set_sector_offset s (next_free j));
    let j := set_in_sector_pos j 0 in
    let j := set_next_free j
               (if u64 (next_free j + 512) >=? journal_len j
                then u64 (next_free j + 512) else 512) in
    Ok (set_sector_buf j (sector_clear (sector_buf j) (512 * cur_sector j) 512))
  else Ok j.

(** The entry a small write puts into the current sector. *)
Definition small_write_entry (j : journal_t) (o : blockstore_operation)
    : journal_entry_small_write :=
  let je := {| e_crc32 := 0;
               e_magic := JOURNAL_MAGIC;
               e_type := JE_SMALL_WRITE;
               e_size := sizeof_journal_entry_small_write;
               e_crc32_prev := crc32_last j;
               e_oid := op_oid o;
               e_version := op_version o;
               e_offset := op_offset o;
               e_len := op_len o |} in
  set_e_crc32 je (je_crc32 je).

(** "Small (journaled) write": the second branch. *)
Definition dequeue_write_small (m : machine) (dirty_it : option nat)
    : result (Z * machine) :=
  let j := journal (bs m) in
  do busy <- sector_buffer_busy j;
  if busy then Ok (0, with_op m (set_wait_for (op m) WAIT_JOURNAL_BUFFER))
  else
      let next_pos := reservation_end j (op_len (op m)) in
      if next_pos >=? used_start j then
        Ok (0, with_op m (set_wait_detail (set_wait_for (op m) WAIT_JOURNAL)
                                          next_pos))
      else
        let prev_sqe_pos := sqe_tail (ring (bs m)) in
        match BS_GET_SQE m prev_sqe_pos with
        | inl parked => Ok parked
        | inr (sqe1, m) =>
        match BS_GET_SQE m prev_sqe_pos with
        | inl parked => Ok parked
        | inr (sqe2, m) =>
            let b := bs m in
            do j <- next_sector j;
            let at_ := 512 * cur_sector j + in_sector_pos j in
            let je := small_write_entry j (op m) in
            let j := set_sector_buf j (sector_store (sector_buf j) at_ je) in
            let iov1 := {| iov_base := SectorBuf (512 * cur_sector j);
                           iov_len := 512 |} in
            do s <- deref (nth_error (sector_info j) (Z.to_nat (cur_sector j)));
            let r := prep (ring b) sqe1
                       (SQE_WRITEV (journal_fd j) iov1
                          (u64 (journal_offset j + sector_offset s)) (op_addr m)) in
            let j := if u64 (journal_len j - next_free j) <? op_len (op m)
                     then set_next_free j 512 else j in
            let iov2 := {| iov_base := OpBuf 0; iov_len := op_len (op m) |} in
            let r := prep r sqe2
                       (SQE_WRITEV (journal_fd j) iov2
                          (u64 (journal_offset j + next_free j)) (op_addr m)) in
            do db <- dirty_assign (dirty_db b) dirty_it (next_free j)
                       ST_J_SUBMITTED;
            let j := set_next_free j (u64 (next_free j + op_len (op m))) in
            let j := if next_free j >=? journal_len j
                     then set_next_free j 512 else j in
            do j <- sector_info_update j (cur_sector j) add_usage;
            let j := set_crc32_last j (e_crc32 je) in
            let o := set_used_journal_sector (set_pending_ops (op m) 2)
                       (u64 (1 + cur_sector j)) in
            let b := set_journal (set_ring (set_dirty_db b db) r) j in
            Ok (1, with_op (with_bs m b) o)
        end
        end.

(** [blockstore::dequeue_write]. *)
Definition dequeue_write (m : machine) : result (Z * machine) :=
  let dirty_it :=
    dirty_find {| oid := op_oid (op m); version := op_version (op m) |}
               (dirty_db (bs m)) in
  if op_len (op m) =? block_size (bs m)
  then dequeue_write_big m dirty_it
  else dequeue_write_small m dirty_it.


(** ** Dispatch sequences and the journal's checksum chain *)

(** The entry at [in_sector_pos] of the current sector buffer: where the
    small write dispatched last has put its entry. *)
Definition appended_entry (m : machine) : option journal_entry_small_write :=
  let j := journal (bs m) in
  sector_load (sector_buf j) (512 * cur_sector j + in_sector_pos j).

(** [dequeue_write] called for one operation after another, in the order
    the dispatcher takes them from the submission queue.  The result lists
    what each call returned and the journal entries of the small writes
    that were dispatched, in that order. *)
Fixpoint dispatch_writes (ops : list blockstore_operation) (m : machine)
    : result (list Z * list journal_entry_small_write * machine) :=
  match ops with
  | [] => Ok ([], [], m)
  | o :: rest =>
      do rm <- dequeue_write (with_op m o);
      let entry :=
        if (fst rm =? 1) && negb (op_len o =? block_size (bs m))
        then match appended_entry (snd rm) with
             | Some e => [e]
             | None => []
             end
        else [] in
      do tail <- dispatch_writes rest (snd rm);
      Ok (fst rm :: fst (fst tail), entry ++ snd (fst tail), snd tail)
  end.

(** Each entry names the checksum of the one before it, [prev] for the
    first, and carries the checksum of itself taken with [crc32 = 0]. *)
Fixpoint crc_chain (prev : Z) (es : list journal_entry_small_write) : Prop :=
  match es with
  | [] => True
  | e :: rest =>
      e_crc32_prev e = prev /\
      e_crc32 e = je_crc32 (set_e_crc32 e 0) /\
      crc_chain (e_crc32 e) rest
  end.

Definition chain_end (prev : Z) (es : list journal_entry_small_write) : Z :=
  fold_left (fun _ e => e_crc32 e) es prev.

(** A small write that [dequeue_write] dispatched. *)
Definition dispatched_small (bsize : Z) (o_r : blockstore_operation * Z)
    : bool :=
  (snd o_r =? 1) && negb (op_len (fst o_r) =? bsize).

(** ** The claim's reading of "highest-version source"

    Not taken from the code: among the dirty versions of [o] a read with
    [flags] may use, the one with the highest version whose range holds
    byte [x] of the object.  [db] is in key order, so it is the last. *)

Definition eligible (flags : Z) (d : dirty_entry) : bool :=
  (Z.land flags OP_TYPE_MASK =? OP_READ_DIRTY) || IS_STABLE (dirty_state d).

Definition covers (d : dirty_entry) (x : Z) : bool :=
  (dirty_offset d <=? x) && (x <? dirty_offset d + dirty_size d).

Fixpoint spec_highest_source (db : dirty_db_t) (flags : Z) (o : object_id)
    (x : Z) : option (obj_ver_id * dirty_entry) :=
  match db with
  | [] => None
  | (k, d) :: rest =>
      match spec_highest_source rest flags o x with
      | Some s => Some s
      | None =>
          if oid_eqb (oid k) o && eligible flags d && covers d x
          then Some (k, d) else None
      end
  end.

(** ** Predicates of the statements below *)




(** What one source may do to the machine: the journal and the flags stay,
    and [wait_for] is only ever set to [WAIT_SQE], or to [WAIT_IN_FLIGHT]
    by a source that is in flight. *)
Definition source_step (in_flight : Prop) (m m' : machine) : Prop :=
  journal (bs m') = journal (bs m) /\
  op_flags (op m') = op_flags (op m) /\
  (op_wait_for (op m') = op_wait_for (op m) \/
   op_wait_for (op m') = WAIT_SQE \/
   (op_wait_for (op m') = WAIT_IN_FLIGHT /\ in_flight)).

Definition is_read_dirty (m : machine) : Prop :=
  Z.land (op_flags (op m)) OP_TYPE_MASK = OP_READ_DIRTY.

(** What the walk over the sources keeps: the requested length, the size
    of the buffer and the callbacks fired so far. *)
Definition walk_keeps (m m' : machine) : Prop :=
  op_len (op m') = op_len (op m) /\
  length (op_buf (op m')) = length (op_buf (op m)) /\
  callbacks m' = callbacks m.

(** ** Concrete stores and operations used by the examples below *)

Definition oid1 : object_id := {| inode := 1; stripe := 0 |}.
Definition oid3 : object_id := {| inode := 3; stripe := 0 |}.
Definition oid5 : object_id := {| inode := 5; stripe := 0 |}.

(** An operation as the caller fills it in; the buffer holds [fill]. *)
Definition new_op (flags : Z) (o : object_id) (ver offset len fill : Z)
    : blockstore_operation :=
  {| op_flags := flags; op_oid := o; op_version := ver; op_offset := offset;
     op_len := len; op_buf := repeat fill (Z.to_nat len); op_retval := 0;
     op_read_vec := []; op_pending_ops := 0; op_wait_for := 0;
     op_wait_detail := 0; op_used_journal_sector := 0 |}.

Definition new_dirty (st loc offset size : Z) : dirty_entry :=
  {| dirty_state := st; dirty_flags := 0; dirty_location := loc;
     dirty_offset := offset; dirty_size := size |}.

Definition key (o : object_id) (v : Z) : obj_ver_id :=
  {| oid := o; version := v |}.

Definition empty_ring : ring_t :=
  {| sqe_head := 0; sq_entries := 8; sq := []; submit_errno := 0;
     submitted := [] |}.

(** A 1 MiB journal at device offset 4096 with two sector buffers, the
    current sector full, nothing in use. *)
Definition idle_journal : journal_t :=
  {| journal_fd := 4; journal_offset := 4096; journal_len := 1048576;
     next_free := 512; used_start := 512; crc32_last := 0;
     sector_buf := [];
     sector_info := [ {| sector_offset := 0; usage_count := 0 |};
                      {| sector_offset := 0; usage_count := 0 |} ];
     sector_count := 2; cur_sector := 0; in_sector_pos := 512 |}.

(** A store of 4 KiB blocks with the given indexes and journal. *)
Definition store (clean : list (object_id * clean_entry)) (dirty : dirty_db_t)
    (alloc : allocator) (j : journal_t) : blockstore :=
  {| object_db := clean; dirty_db := dirty; in_process_ops := [];
     block_order := 12; block_size := 4096; data_alloc := alloc;
     data_fd := 3; data_offset := 16777216; journal := j;
     ring := empty_ring |}.

Definition boot (b : blockstore) (o : blockstore_operation) : machine :=
  {| bs := b; op := o; op_addr := 1000; callbacks := [] |}.

(** A fresh store: both indexes empty. *)
Definition fresh_read : machine :=
  boot (store [] [] [false; false] idle_journal)
       (new_op OP_READ oid3 0 0 1024 170).

(** Object 1 holds the only, deleted, dirty version of the whole store. *)
Definition first_object_read : machine :=
  boot (store [] [ (key oid1 1, new_dirty ST_DEL_WRITTEN 0 0 4096) ]
              [false; false] idle_journal)
       (new_op OP_READ_DIRTY oid1 0 0 1024 170).

(** The dirty index holds object 5 only; object 3 is read. *)
Definition absent_object_read : machine :=
  boot (store [] [ (key oid5 1, new_dirty ST_J_STABLE 4096 0 1024) ]
              [false; false] idle_journal)
       (new_op OP_READ oid3 0 0 1024 170).

(** Object 3: version 1 written through the journal and stable, version 2
    a synced deletion of the whole block. *)
Definition deleted_over_written : dirty_db_t :=
  [ (key oid1 1, new_dirty ST_J_STABLE 4096 0 512);
    (key oid3 1, new_dirty ST_J_STABLE 8192 0 1024);
    (key oid3 2, new_dirty ST_DEL_SYNCED 0 0 4096) ].

Definition deleted_read : machine :=
  boot (store [] deleted_over_written [false; false] idle_journal)
       (new_op OP_READ oid3 0 0 1024 170).

(** Object 3: version 1 stable in the journal, version 2 still in flight
    over the same range. *)
Definition in_flight_over_stable : dirty_db_t :=
  [ (key oid1 1, new_dirty ST_J_STABLE 4096 0 512);
    (key oid3 1, new_dirty ST_J_STABLE 8192 0 1024);
    (key oid3 2, new_dirty ST_IN_FLIGHT 0 0 1024) ].

Definition plain_read_in_flight : machine :=
  boot (store [] in_flight_over_stable [false; false] idle_journal)
       (new_op OP_READ oid3 0 0 1024 170).


(** Object 3 has one stable journaled version; sector buffer 0 is in use by
    an earlier write. *)
Definition pinned_journal : journal_t :=
  set_sector_info idle_journal
    [ {| sector_offset := 512; usage_count := 1 |};
      {| sector_offset := 0; usage_count := 0 |} ].

Definition journal_read : machine :=
  boot (store []
              [ (key oid1 1, new_dirty ST_J_STABLE 4096 0 512);
                (key oid3 1, new_dirty ST_J_STABLE 8192 0 1024) ]
              [false; false] pinned_journal)
       (new_op OP_READ oid3 0 0 1024 170).

(** Object 3 with three versions in flight, as enqueued. *)
Definition three_in_flight : dirty_db_t :=
  [ (key oid1 1, new_dirty ST_J_STABLE 4096 0 512);
    (key oid3 1, new_dirty ST_IN_FLIGHT 0 0 512);
    (key oid3 2, new_dirty ST_IN_FLIGHT 0 0 4096);
    (key oid3 3, new_dirty ST_IN_FLIGHT 0 512 512) ].

(** A big write when both data blocks are taken. *)
Definition big_write_no_space : machine :=
  boot (store [] three_in_flight [true; true] idle_journal)
       (new_op OP_WRITE oid3 2 0 4096 17).

(** The used region [[65536, len)] and [[512, 1024)] wraps around the end
    of the journal; the bytes from 1024 to 65536 are free. *)
Definition roomy_journal : journal_t :=
  {| journal_fd := 4; journal_offset := 4096; journal_len := 1048576;
     next_free := 1024; used_start := 65536; crc32_last := 7;
     sector_buf := [];
     sector_info := [ {| sector_offset := 512; usage_count := 0 |};
                      {| sector_offset := 0; usage_count := 0 |} ];
     sector_count := 2; cur_sector := 0; in_sector_pos := 512 |}.

Definition small_write_roomy : machine :=
  boot (store [] three_in_flight [false; false] roomy_journal)
       (new_op OP_WRITE oid3 1 0 512 17).

(** Three writes handed to the dispatcher one after another. *)
Definition three_writes : list blockstore_operation :=
  [ new_op OP_WRITE oid3 1 0 512 17;
    new_op OP_WRITE oid3 2 0 4096 34;
    new_op OP_WRITE oid3 3 512 512 51 ].

(** Only the 512 bytes from 4096 to 4608 are free. *)
Definition crowded_journal (next_usage : Z) : journal_t :=
  {| journal_fd := 4; journal_offset := 4096; journal_len := 1048576;
     next_free := 4096; used_start := 4608; crc32_last := 7;
     sector_buf := [];
     sector_info := [ {| sector_offset := 3584; usage_count := 1 |};
                      {| sector_offset := 0; usage_count := next_usage |} ];
     sector_count := 2; cur_sector := 0; in_sector_pos := 512 |}.

Definition small_write_crowded (next_usage : Z) : machine :=
  boot (store [] three_in_flight [false; false] (crowded_journal next_usage))
       (new_op OP_WRITE oid3 1 0 512 17).

(** A 4 KiB journal whose free space starts in its last sector. *)
Definition tail_journal : journal_t :=
  {| journal_fd := 4; journal_offset := 4096; journal_len := 4096;
     next_free := 3584; used_start := 2048; crc32_last := 7;
     sector_buf := [];
     sector_info := [ {| sector_offset := 3072; usage_count := 0 |};
                      {| sector_offset := 0; usage_count := 0 |} ];
     sector_count := 2; cur_sector := 0; in_sector_pos := 512 |}.

Definition small_write_tail : machine :=
  boot (store [] three_in_flight [false; false] tail_journal)
       (new_op OP_WRITE oid3 1 0 512 17).

(** A stand-in for the checksum, good enough to tell entries apart. *)
Definition sum_crc32 (e : journal_entry_small_write) : Z :=
  u32 (e_magic e + e_type e + e_size e + 31 * e_crc32_prev e
       + inode (e_oid e) + stripe (e_oid e) + e_version e + e_offset e
       + e_len e).

(** ** blockstore.h: stripe macros *)

(** [STRIPE_NUM(oid)] and [STRIPE_REPLICA(oid)]. *)
Definition STRIPE_NUM (stripe_id : Z) : Z := Z.shiftr stripe_id 4.

Definition STRIPE_REPLICA (stripe_id : Z) : Z := Z.land stripe_id 15.

(** ** Predicates on [read_vec] and on the ring *)

(** The entries of [rv] lie between [lo] and [hi] in key order; none is
    empty, none reaches into the next, and each points at its own bytes of
    the buffer of a request that starts at [off]. *)
Fixpoint rv_chain (off lo hi : Z) (rv : read_vec_t) : Prop :=
  match rv with
  | [] => True
  | (k, iov) :: rest =>
      lo <= k /\ 0 < iov_len iov /\ k + iov_len iov <= hi /\
      iov_base iov = OpBuf (k - off) /\
      rv_chain off (k + iov_len iov) hi rest
  end.

(** Byte [x] of the object is in the range of an entry of [rv]. *)
Definition rv_covers (rv : read_vec_t) (x : Z) : Prop :=
  exists k iov, In (k, iov) rv /\ k <= x < k + iov_len iov.

(** The first node of [nodes], if any, starts at [bound] or later. *)
Definition starts_from (bound : Z) (nodes : read_vec_t) : Prop :=
  match nodes with
  | [] => True
  | (first, _) :: _ => bound <= first
  end.

(** The range of the node [e] ends at [bound] or before. *)
Definition ends_by (bound : Z) (e : Z * iovec) : Prop :=
  fst e + iov_len (snd e) <= bound.

(** The request of [o] does not wrap around 32 bits. *)
Definition request_ok (o : blockstore_operation) : Prop :=
  0 <= op_offset o /\ 0 <= op_len o /\ op_offset o + op_len o < 2 ^ 32.

(** The kernel read [fulfill_read_push] prepares for the bytes from
    [cur_start] to [cur_end] of an item. *)
Definition read_request (m : machine)
    (item_start item_state item_location cur_start cur_end : Z)
    : io_uring_sqe :=
  SQE_READV
    (if IS_JOURNAL item_state
     then journal_fd (journal (bs m)) else data_fd (bs m))
    {| iov_base := OpBuf (cur_start - op_offset (op m));
       iov_len := u32 (cur_end - cur_start) |}
    (u64 ((if IS_JOURNAL item_state
           then journal_offset (journal (bs m)) else data_offset (bs m))
          + item_location + cur_start - item_start))
    (op_addr m).

(** [m'] has the blockstore of [m] but for the slots [extra] handed out
    on top of those of [m]. *)
Definition ring_grows (m m' : machine) (extra : list io_uring_sqe) : Prop :=
  bs m' = set_ring (bs m)
            (set_sq (ring (bs m)) (sq (ring (bs m)) ++ extra)).

(** A read request of the operation at [addr]. *)
Definition is_read_of (addr : Z) (e : io_uring_sqe) : Prop :=
  exists fd iov off, e = SQE_READV fd iov off addr.

(** The object of the operation has no dirty version. *)
Definition no_dirty_version (m : machine) : Prop :=
  Forall (fun kd => oid_eqb (oid (fst kd)) (op_oid (op m)) = false)
         (dirty_db (bs m)).

(** [dirty_db.upper_bound] of lines 82-85 does not return [begin()]: the
    dirty index holds a key that is not above [(oid, UINT64_MAX)], and the
    [dirty_it--] of line 86 is defined. *)
Definition dirty_lookup_defined (m : machine) : Prop :=
  dirty_upper_bound {| oid := op_oid (op m); version := UINT64_MAX |}
                    (dirty_db (bs m)) <> O.

(** ** More stores and operations for the examples *)

(** The plain read of object 3 after a newer journaled source has claimed
    bytes 256..511 of it. *)
Definition partly_recorded_read : machine :=
  snd (fulfill_read plain_read_in_flight 256 512 ST_J_STABLE 2 12288).

(** Object 3: version 1 in flight over bytes 0..1023, version 2 stable in
    the journal over bytes 0..511. *)
Definition stable_over_in_flight : dirty_db_t :=
  [ (key oid1 1, new_dirty ST_J_STABLE 4096 0 512);
    (key oid3 1, new_dirty ST_IN_FLIGHT 0 0 1024);
    (key oid3 2, new_dirty ST_J_STABLE 8192 0 512) ].

Definition dirty_read_half_in_flight : machine :=
  boot (store [] stable_over_in_flight [false; false] idle_journal)
       (new_op OP_READ_DIRTY oid3 0 0 1024 170).

(** Object 3 has a clean entry in the data block at 4096 and a stable
    journaled version 2 of its bytes 256..511. *)
Definition clean_under_dirty_read : machine :=
  boot (store [ (oid3, {| clean_version := 1; clean_state := ST_D_STABLE;
                          clean_location := 4096 |}) ]
              [ (key oid1 1, new_dirty ST_J_STABLE 4096 0 512);
                (key oid3 2, new_dirty ST_J_STABLE 8192 256 256) ]
              [false; true] idle_journal)
       (new_op OP_READ oid3 0 0 1024 170).

(** Object 3 has a clean entry only; bytes 512..1535 of it are read. *)
Definition clean_read : machine :=
  boot (store [ (oid3, {| clean_version := 1; clean_state := ST_D_STABLE;
                          clean_location := 4096 |}) ]
              [ (key oid1 1, new_dirty ST_J_STABLE 4096 0 512) ]
              [false; true] idle_journal)
       (new_op OP_READ oid3 0 512 1024 170).

(** The same read when another operation holds the only slot of the
    ring. *)
Definition clean_read_full_ring : machine :=
  with_bs clean_read
    (set_ring (bs clean_read)
       {| sqe_head := 0; sq_entries := 1;
          sq := [SQE_WRITEV 3 {| iov_base := OpBuf 0; iov_len := 4096 |}
                            16777216 2000];
          submit_errno := 0; submitted := [] |}).

(** A big write when the second data block is free. *)
Definition big_write_second_free : machine :=
  boot (store [] three_in_flight [true; false] idle_journal)
       (new_op OP_WRITE oid3 2 0 4096 17).

(** Object 3 is in neither index; the lookup in the dirty index lands on
    object 1. *)
Definition unallocated_read : machine :=
  boot (store [] [ (key oid1 1, new_dirty ST_J_STABLE 4096 0 512) ]
              [false; false] idle_journal)
       (new_op OP_READ oid3 0 0 1024 170).

(** The only version of object 3 is a synced deletion. *)
Definition deleted_only_read : machine :=
  boot (store [] [ (key oid1 1, new_dirty ST_J_STABLE 4096 0 512);
                   (key oid3 1, new_dirty ST_DEL_SYNCED 0 0 4096) ]
              [false; false] idle_journal)
       (new_op OP_READ oid3 0 0 1024 170).

(** ** The journal as a ring *)

(** The spec's reading of the journal: "`used_start` (inclusive) and
    `next_free` (exclusive) are the live region" of a ring that starts
    again at 512 after [len].  [journal_live j x]: byte [x] holds data that
    has not been flushed. *)
Definition journal_live (j : journal_t) (x : Z) : bool :=
  if used_start j <=? next_free j
  then (used_start j <=? x) && (x <? next_free j)
  else ((used_start j <=? x) && (x <? journal_len j))
       || ((512 <=? x) && (x <? next_free j)).

(** The bytes of the ring that are not live. *)
Definition journal_free_bytes (j : journal_t) : Z :=
  if used_start j <=? next_free j
  then (journal_len j - next_free j) + (used_start j - 512)
  else used_start j - next_free j.

(** A ring that is nearly full: the live bytes run from 1047552 to the end
    and from 512 to 1046528, 1024 bytes are free, and the current sector
    has room for more entries. *)
Definition nearly_full_journal : journal_t :=
  {| journal_fd := 4; journal_offset := 4096; journal_len := 1048576;
     next_free := 1046528; used_start := 1047552; crc32_last := 7;
     sector_buf := [];
     sector_info := [ {| sector_offset := 1045504; usage_count := 1 |};
                      {| sector_offset := 0; usage_count := 0 |} ];
     sector_count := 2; cur_sector := 0; in_sector_pos := 56 |}.

(** A small write of 2560 bytes to that journal. *)
Definition small_write_nearly_full : machine :=
  boot (store [] [ (key oid1 1, new_dirty ST_J_STABLE 4096 0 512);
                   (key oid3 1, new_dirty ST_IN_FLIGHT 0 0 2560) ]
              [false; false] nearly_full_journal)
       (new_op OP_WRITE oid3 1 0 2560 17).

(** A small write of 512 bytes to the journal nothing has been written
    to. *)
Definition small_write_fresh : machine :=
  boot (store [] three_in_flight [false; false] idle_journal)
       (new_op OP_WRITE oid3 1 0 512 17).

(** * Properties *)

(** ** Iterators of [read_vec]

    Inserting a key below [first] leaves the nodes from [first] on as they
    are: what [fulfill_read_loop] goes through is what the iterator of the
    source goes through. *)
Lemma rv_insert_below (k : Z) (v : iovec) (first : Z) (second : iovec)
    (nodes : read_vec_t) :
  k < first ->
  forall before : read_vec_t,
  exists before',
    rv_insert k v (before ++ (first, second) :: nodes)
    = before' ++ (first, second) :: nodes.
Proof.
  intros Hlt. induction before as [|[k0 v0] rest IH]; simpl.
  - apply Z.ltb_lt in Hlt. rewrite Hlt. now exists [(k, v)].
  - destruct (k <? k0).
    + now exists ((k, v) :: (k0, v0) :: rest).
    + destruct (k =? k0).
      * now exists ((k, v) :: rest).
      * destruct IH as (before' & ->). now exists ((k0, v0) :: before').
Qed.

(** ** Keys and their order *)

Ltac order_bools :=
  unfold ov_ltb, oid_ltb, oid_eqb in *; simpl in *;
  repeat match goal with
         | H : _ = false |- _ => apply not_true_iff_false in H
         | |- _ = false => apply not_true_iff_false; intro
         end;
  rewrite ?orb_true_iff, ?andb_true_iff, ?Z.ltb_lt, ?Z.eqb_eq in *.


Lemma oid_eqb_eq (a b : object_id) : oid_eqb a b = true -> a = b.
Proof.
  destruct a, b. order_bools. intros [-> ->]. reflexivity.
Qed.





(** ** The read path leaves the journal alone *)

Lemma dirty_walk_eq (i : nat) (m : machine) :
  dirty_walk i m =
  match nth_error (dirty_db (bs m)) i with
  | None => Undefined
  | Some (key, dirty) =>
      if oid_eqb (oid key) (op_oid (op m)) then
        let '(r, m1) :=
          if (Z.land (op_flags (op m)) OP_TYPE_MASK =? OP_READ_DIRTY)
             || IS_STABLE (dirty_state dirty)
          then fulfill_read m (dirty_offset dirty)
                 (u32 (dirty_offset dirty + dirty_size dirty))
                 (dirty_state dirty) (version key) (dirty_location dirty)
          else (0, m) in
        if r <? 0 then Ok (-1, m1)
        else match i with
             | O => Undefined
             | S j => dirty_walk j m1
             end
      else Ok (0, m)
  end.
Proof. destruct i; reflexivity. Qed.


Lemma source_step_refl (P : Prop) (m : machine) : source_step P m m.
Proof. unfold source_step. auto. Qed.

Lemma source_step_trans (P : Prop) (m1 m2 m3 : machine) :
  source_step P m1 m2 -> source_step P m2 m3 -> source_step P m1 m3.
Proof.
  unfold source_step. intros (J1 & F1 & W1) (J2 & F2 & W2).
  rewrite J2, J1, F2, F1. repeat split.
  destruct W2 as [W2|[W2|W2]]; [rewrite W2; exact W1|auto|auto].
Qed.

Lemma source_step_weaken (P Q : Prop) (m m' : machine) :
  (P -> Q) -> source_step P m m' -> source_step Q m m'.
Proof. unfold source_step. intuition. Qed.

Lemma fulfill_read_push_step (m : machine) (a st v loc s e : Z) :
  source_step (st = ST_IN_FLIGHT) m (snd (fulfill_read_push m a st v loc s e)).
Proof.
  unfold fulfill_read_push, source_step.
  destruct (s <? e); [|simpl; auto].
  destruct (st =? ST_IN_FLIGHT) eqn:E.
  - apply Z.eqb_eq in E. simpl. auto 6.
  - destruct (is_deleted st); [simpl; auto|].
    destruct (get_sqe (ring (bs m))) as [[sqe r]|]; simpl; auto.
Qed.

Lemma fulfill_read_loop_step (nodes : read_vec_t) :
  forall (m : machine) (a st v loc s e : Z),
    source_step (st = ST_IN_FLIGHT) m
      (snd (fulfill_read_loop nodes m a st v loc s e)).
Proof.
  induction nodes as [|[first second] rest IH]; intros m a st v loc s e; simpl.
  - pose proof (fulfill_read_push_step m a st v loc s e) as H.
    destruct (fulfill_read_push m a st v loc s e) as [r m1].
    destruct (r <? 0); exact H.
  - destruct (first <? e).
    + pose proof (fulfill_read_push_step m a st v loc s (u32 first)) as H.
      destruct (fulfill_read_push m a st v loc s (u32 first)) as [r m1].
      destruct (r <? 0); [exact H|].
      eapply source_step_trans; [exact H|apply IH].
    + pose proof (fulfill_read_push_step m a st v loc s e) as H.
      destruct (fulfill_read_push m a st v loc s e) as [r m1].
      destruct (r <? 0); exact H.
Qed.

Lemma fulfill_read_step (m : machine) (a e st v loc : Z) :
  source_step (st = ST_IN_FLIGHT) m (snd (fulfill_read m a e st v loc)).
Proof.
  unfold fulfill_read.
  destruct ((a <? u32 (op_offset (op m) + op_len (op m)))
            && (op_offset (op m) <? e)).
  - apply fulfill_read_loop_step.
  - apply source_step_refl.
Qed.


Lemma dirty_walk_step (i : nat) :
  forall (m : machine) (r : Z) (m' : machine),
    dirty_walk i m = Ok (r, m') -> source_step (is_read_dirty m) m m'.
Proof.
  induction i as [|j IH]; intros m r m'; rewrite dirty_walk_eq;
    (destruct (nth_error (dirty_db (bs m)) _) as [[k d]|]; [|discriminate]);
    (destruct (oid_eqb (oid k) (op_oid (op m)));
       [|intros [= <- <-]; apply source_step_refl]).
  all: assert (Hsrc : source_step (is_read_dirty m) m
         (snd (if (Z.land (op_flags (op m)) OP_TYPE_MASK =? OP_READ_DIRTY)
                  || IS_STABLE (dirty_state d)
               then fulfill_read m (dirty_offset d)
                      (u32 (dirty_offset d + dirty_size d)) (dirty_state d)
                      (version k) (dirty_location d)
               else (0, m))));
    [ destruct (Z.land (op_flags (op m)) OP_TYPE_MASK =? OP_READ_DIRTY) eqn:E;
      simpl orb;
      [ apply Z.eqb_eq in E;
        eapply source_step_weaken; [|apply fulfill_read_step]; intros _; exact E
      | destruct (IS_STABLE (dirty_state d)) eqn:S;
        [ eapply source_step_weaken; [|apply fulfill_read_step];
          intros Hst; rewrite Hst in S; discriminate
        | apply source_step_refl ] ]
    | ].
  all: destruct (if (Z.land (op_flags (op m)) OP_TYPE_MASK =? OP_READ_DIRTY)
                    || IS_STABLE (dirty_state d)
                 then _ else _) as [r1 m1]; simpl in Hsrc;
    destruct (r1 <? 0); [intros [= <- <-]; exact Hsrc|].
  - discriminate.
  - intros Hw. eapply source_step_trans; [exact Hsrc|].
    eapply source_step_weaken; [|eapply IH, Hw].
    unfold is_read_dirty. destruct Hsrc as (_ & F & _). now rewrite F.
Qed.

Lemma return_zeroes_step (P : Prop) (m : machine) :
  source_step P m (return_zeroes m).
Proof. unfold source_step. simpl. auto. Qed.

Lemma undo_requests_step (P : Prop) (m : machine) (pos : Z) :
  source_step P m (undo_requests m pos).
Proof. unfold source_step. simpl. auto. Qed.

Lemma dequeue_read_step (m : machine) (r : Z) (m' : machine) :
  dequeue_read m = Ok (r, m') -> source_step (is_read_dirty m) m m'.
Proof.
  unfold dequeue_read.
  destruct (dirty_upper_bound _ _) as [|i]; [discriminate|].
  set (found := match nth_error (dirty_db (bs m)) i with
                | Some (k, _) => oid_eqb (oid k) (op_oid (op m))
                | None => false
                end).
  destruct (negb _ && negb found).
  { intros [= <- <-]. apply return_zeroes_step. }
  assert (Hwalk : forall r1 m1,
             (if found then dirty_walk i m else Ok (0, m)) = Ok (r1, m1) ->
             source_step (is_read_dirty m) m m1).
  { intros r1 m1. destruct found.
    - apply dirty_walk_step.
    - intros [= <- <-]. apply source_step_refl. }
  destruct (if found then dirty_walk i m else Ok (0, m)) as [[r1 m1]| |];
    [|discriminate|discriminate].
  specialize (Hwalk r1 m1 eq_refl).
  destruct (r1 <? 0).
  { intros [= <- <-]. eapply source_step_trans; [exact Hwalk|].
    apply undo_requests_step. }
  assert (Hclean : source_step (is_read_dirty m) m1
            (snd (match object_db_find (op_oid (op m)) (object_db (bs m)) with
                  | Some clean =>
                      fulfill_read m1 0 (block_size (bs m1)) ST_CURRENT 0
                                   (clean_location clean)
                  | None => (0, m1)
                  end))).
  { destruct (object_db_find _ _).
    - eapply source_step_weaken; [|apply fulfill_read_step]. discriminate.
    - apply source_step_refl. }
  destruct (match object_db_find (op_oid (op m)) (object_db (bs m)) with
            | Some clean => _ | None => _ end) as [r2 m2]. simpl in Hclean.
  pose proof (source_step_trans _ _ _ _ Hwalk Hclean) as H2.
  destruct (r2 <? 0).
  { intros [= <- <-]. eapply source_step_trans; [exact H2|].
    apply undo_requests_step. }
  destruct (length (op_read_vec (op m2)) =? 0)%nat.
  { intros [= <- <-]. eapply source_step_trans; [exact H2|].
    apply return_zeroes_step. }
  unfold submit. simpl.
  destruct (submit_errno (ring (bs m2)) =? 0); simpl.
  - destruct (Z.of_nat _ <? 0); [discriminate|].
    intros [= <- <-]. eapply source_step_trans; [exact H2|].
    unfold source_step. simpl. auto.
  - destruct (- submit_errno (ring (bs m2)) <? 0); [discriminate|].
    intros [= <- <-]. eapply source_step_trans; [exact H2|].
    unfold source_step. simpl. auto.
Qed.

(** X12.  A plain [READ] never asks to wait for a version in flight: it passes
    over the versions that are not stable. *)
Lemma plain_read_never_waits_in_flight (m : machine) (r : Z) (m' : machine) :
  Z.land (op_flags (op m)) OP_TYPE_MASK <> OP_READ_DIRTY ->
  dequeue_read m = Ok (r, m') ->
  op_wait_for (op m') = op_wait_for (op m) \/ op_wait_for (op m') = WAIT_SQE.
Proof.
  intros Hplain Hrun.
  destruct (dequeue_read_step m r m' Hrun) as (_ & _ & [W|[W|[_ W]]]); auto.
  contradiction.
Qed.

(** C8 (as amended).  Whatever a read operation does - return zeroes, wait,
    or submit kernel reads from the journal or the data region - it leaves
    the journal as it was; in particular no sector's usage count moves. *)
Theorem dequeue_read_keeps_journal (m : machine) (r : Z) (m' : machine) :
  dequeue_read m = Ok (r, m') -> journal (bs m') = journal (bs m).
Proof.
  intros Hrun. exact (proj1 (dequeue_read_step m r m' Hrun)).
Qed.

(** ** Waiting for a version in flight *)

Lemma set_sqe_tail_same (r : ring_t) : set_sqe_tail r (sqe_tail r) = r.
Proof.
  unfold set_sqe_tail, sqe_tail, set_sq.
  replace (sqe_head r + Z.of_nat (length (sq r)) - sqe_head r)
    with (Z.of_nat (length (sq r))) by lia.
  rewrite Nat2Z.id, firstn_all. destruct r; reflexivity.
Qed.

Lemma set_ring_same (b : blockstore) : set_ring b (ring b) = b.
Proof. destruct b; reflexivity. Qed.


(** ** The lookup in the dirty index *)

(** C9.  When the dirty index is empty, or holds no key up to [(oid,
    UINT64_MAX)], [upper_bound] gives [begin()] and the decrement that
    follows is undefined: [dequeue_read] has no defined result. *)
Theorem dequeue_read_lookup_undefined (m : machine) :
  Forall (fun kd => ov_ltb {| oid := op_oid (op m); version := UINT64_MAX |}
                           (fst kd) = true)
         (dirty_db (bs m)) ->
  dequeue_read m = Undefined.
Proof.
  intros Hall. unfold dequeue_read.
  destruct (dirty_db (bs m)) as [|[k d] rest]; [reflexivity|].
  inversion Hall as [|? ? Hk _]; subst. simpl in *. now rewrite Hk.
Qed.

(** ** Objects that are not allocated *)

Lemma memset_from_zero (buf : list Z) :
  forall i n, Z.of_nat (length buf) <= n ->
              0 <= i -> memset_from i buf 0 (i + n) = repeat 0 (length buf).
Proof.
  induction buf as [|b rest IH]; intros i n Hn Hi; simpl; [reflexivity|].
  simpl length in Hn. rewrite Nat2Z.inj_succ in Hn.
  f_equal.
  - destruct ((0 <=? i) && (i <? _)) eqn:E; [reflexivity|].
    apply andb_false_iff in E. destruct E as [E|E];
      [apply Z.leb_gt in E|apply Z.ltb_ge in E]; lia.
  - replace (i + n) with ((i + 1) + (n - 1)) by lia.
    apply IH; lia.
Qed.

(** X13.  When the lookup is defined and finds another object, and the clean
    index has no entry either, the buffer is zeroed, [retval] is [len] and
    the callback runs before [dequeue_read] returns 1. *)
Lemma dequeue_read_unallocated (m : machine) (i : nat)
    (k : obj_ver_id) (d : dirty_entry) :
  object_db_find (op_oid (op m)) (object_db (bs m)) = None ->
  dirty_upper_bound {| oid := op_oid (op m); version := UINT64_MAX |}
                    (dirty_db (bs m)) = S i ->
  nth_error (dirty_db (bs m)) i = Some (k, d) ->
  oid_eqb (oid k) (op_oid (op m)) = false ->
  Z.of_nat (length (op_buf (op m))) = op_len (op m) ->
  op_len (op m) < 2 ^ 31 ->
  exists m',
    dequeue_read m = Ok (1, m') /\
    op_buf (op m') = repeat 0 (length (op_buf (op m))) /\
    op_retval (op m') = op_len (op m) /\
    callbacks m' = callbacks m ++ [op m'] /\
    bs m' = bs m.
Proof.
  intros Hclean Hub Hnth Hoid Hbuf Hlen.
  eexists. split.
  - unfold dequeue_read. rewrite Hclean, Hub, Hnth, Hoid. simpl. reflexivity.
  - simpl. repeat split.
    + unfold memset. rewrite <- (Z.add_0_l (op_len (op m))).
      apply memset_from_zero; lia.
    + unfold int32. rewrite Z.mod_small; lia.
Qed.

(** ** Reads that emit no kernel I/O *)

Lemma memset_from_length (buf : list Z) :
  forall i at_ n, length (memset_from i buf at_ n) = length buf.
Proof. induction buf; intros; simpl; [|rewrite IHbuf]; reflexivity. Qed.

Lemma walk_keeps_refl (m : machine) : walk_keeps m m.
Proof. unfold walk_keeps. auto. Qed.

Lemma walk_keeps_trans (m1 m2 m3 : machine) :
  walk_keeps m1 m2 -> walk_keeps m2 m3 -> walk_keeps m1 m3.
Proof.
  unfold walk_keeps. intros (L1 & B1 & C1) (L2 & B2 & C2).
  rewrite L2, L1, B2, B1, C2, C1. auto.
Qed.

Lemma fulfill_read_push_keeps (m : machine) (a st v loc s e : Z) :
  walk_keeps m (snd (fulfill_read_push m a st v loc s e)).
Proof.
  unfold fulfill_read_push, walk_keeps.
  destruct (s <? e); [|simpl; auto].
  destruct (st =? ST_IN_FLIGHT); [simpl; auto|].
  destruct (is_deleted st).
  - simpl. unfold memset. rewrite memset_from_length. auto.
  - destruct (get_sqe (ring (bs m))) as [[sqe r]|]; simpl; auto.
Qed.

Lemma fulfill_read_loop_keeps (nodes : read_vec_t) :
  forall (m : machine) (a st v loc s e : Z),
    walk_keeps m (snd (fulfill_read_loop nodes m a st v loc s e)).
Proof.
  induction nodes as [|[first second] rest IH]; intros m a st v loc s e; simpl.
  - pose proof (fulfill_read_push_keeps m a st v loc s e) as H.
    destruct (fulfill_read_push m a st v loc s e) as [r m1].
    destruct (r <? 0); exact H.
  - destruct (first <? e).
    + pose proof (fulfill_read_push_keeps m a st v loc s (u32 first)) as H.
      destruct (fulfill_read_push m a st v loc s (u32 first)) as [r m1].
      destruct (r <? 0); [exact H|].
      eapply walk_keeps_trans; [exact H|apply IH].
    + pose proof (fulfill_read_push_keeps m a st v loc s e) as H.
      destruct (fulfill_read_push m a st v loc s e) as [r m1].
      destruct (r <? 0); exact H.
Qed.

Lemma fulfill_read_keeps (m : machine) (a e st v loc : Z) :
  walk_keeps m (snd (fulfill_read m a e st v loc)).
Proof.
  unfold fulfill_read.
  destruct ((a <? u32 (op_offset (op m) + op_len (op m)))
            && (op_offset (op m) <? e)).
  - apply fulfill_read_loop_keeps.
  - apply walk_keeps_refl.
Qed.

Lemma dirty_walk_keeps (i : nat) :
  forall (m : machine) (r : Z) (m' : machine),
    dirty_walk i m = Ok (r, m') -> walk_keeps m m'.
Proof.
  induction i as [|j IH]; intros m r m'; rewrite dirty_walk_eq;
    (destruct (nth_error (dirty_db (bs m)) _) as [[k d]|]; [|discriminate]);
    (destruct (oid_eqb (oid k) (op_oid (op m)));
       [|intros [= <- <-]; apply walk_keeps_refl]).
  all: assert (Hsrc : walk_keeps m
         (snd (if (Z.land (op_flags (op m)) OP_TYPE_MASK =? OP_READ_DIRTY)
                  || IS_STABLE (dirty_state d)
               then fulfill_read m (dirty_offset d)
                      (u32 (dirty_offset d + dirty_size d)) (dirty_state d)
                      (version k) (dirty_location d)
               else (0, m))));
    [ destruct ((Z.land (op_flags (op m)) OP_TYPE_MASK =? OP_READ_DIRTY)
                || IS_STABLE (dirty_state d));
      [apply fulfill_read_keeps|apply walk_keeps_refl]
    | ].
  all: destruct (if (Z.land (op_flags (op m)) OP_TYPE_MASK =? OP_READ_DIRTY)
                    || IS_STABLE (dirty_state d)
                 then _ else _) as [r1 m1]; simpl in Hsrc;
    destruct (r1 <? 0); [intros [= <- <-]; exact Hsrc|].
  - discriminate.
  - intros Hw. eapply walk_keeps_trans; [exact Hsrc|eapply IH, Hw].
Qed.

Lemma return_zeroes_result (m0 m : machine) :
  walk_keeps m0 m ->
  Z.of_nat (length (op_buf (op m0))) = op_len (op m0) ->
  op_len (op m0) < 2 ^ 31 ->
  op_buf (op (return_zeroes m)) = repeat 0 (length (op_buf (op m0))) /\
  op_retval (op (return_zeroes m)) = op_len (op m0) /\
  callbacks (return_zeroes m) = callbacks m0 ++ [op (return_zeroes m)].
Proof.
  intros (L & B & C) Hbuf Hlen. simpl. rewrite L, C, <- B. repeat split.
  - unfold memset. rewrite <- (Z.add_0_l (op_len (op m0))).
    apply memset_from_zero; lia.
  - unfold int32. rewrite Z.mod_small; lia.
Qed.

(** X14.  Whenever [dequeue_read] returns 1 and has queued no kernel read, the
    whole buffer is zero, [retval] is [len], and the callback has run on
    the operation. *)
Lemma dequeue_read_without_io (m m' : machine) :
  dequeue_read m = Ok (1, m') ->
  op_read_vec (op m') = [] ->
  Z.of_nat (length (op_buf (op m))) = op_len (op m) ->
  op_len (op m) < 2 ^ 31 ->
  op_buf (op m') = repeat 0 (length (op_buf (op m))) /\
  op_retval (op m') = op_len (op m) /\
  callbacks m' = callbacks m ++ [op m'].
Proof.
  intros Hrun Hrv Hbuf Hlen. revert Hrun. unfold dequeue_read.
  destruct (dirty_upper_bound _ _) as [|i]; [discriminate|].
  set (found := match nth_error (dirty_db (bs m)) i with
                | Some (k, _) => oid_eqb (oid k) (op_oid (op m))
                | None => false
                end).
  destruct (negb _ && negb found).
  { intros [= <-]. apply return_zeroes_result; auto using walk_keeps_refl. }
  assert (Hwalk : forall r1 m1,
             (if found then dirty_walk i m else Ok (0, m)) = Ok (r1, m1) ->
             walk_keeps m m1).
  { intros r1 m1. destruct found.
    - apply dirty_walk_keeps.
    - intros [= <- <-]. apply walk_keeps_refl. }
  destruct (if found then dirty_walk i m else Ok (0, m)) as [[r1 m1]| |];
    [|discriminate|discriminate].
  specialize (Hwalk r1 m1 eq_refl).
  destruct (r1 <? 0); [discriminate|].
  assert (Hclean : walk_keeps m1
            (snd (match object_db_find (op_oid (op m)) (object_db (bs m)) with
                  | Some clean =>
                      fulfill_read m1 0 (block_size (bs m1)) ST_CURRENT 0
                                   (clean_location clean)
                  | None => (0, m1)
                  end))).
  { destruct (object_db_find _ _);
      [apply fulfill_read_keeps|apply walk_keeps_refl]. }
  destruct (match object_db_find (op_oid (op m)) (object_db (bs m)) with
            | Some clean => _ | None => _ end) as [r2 m2]. simpl in Hclean.
  pose proof (walk_keeps_trans _ _ _ Hwalk Hclean) as H2.
  destruct (r2 <? 0); [discriminate|].
  destruct (length (op_read_vec (op m2)) =? 0)%nat eqn:Hempty.
  { intros [= <-]. apply return_zeroes_result; auto. }
  unfold submit. simpl.
  destruct (submit_errno (ring (bs m2)) =? 0); simpl.
  - destruct (Z.of_nat _ <? 0); [discriminate|].
    intros [= <-]. simpl in Hrv. rewrite Hrv in Hempty. discriminate.
  - destruct (- submit_errno (ring (bs m2)) <? 0); [discriminate|].
    intros [= <-]. simpl in Hrv. rewrite Hrv in Hempty. discriminate.
Qed.

(** ** Big writes without a free block *)

Lemma find_free_from_full (a : allocator) :
  Forall (fun b => b = true) a -> forall i, find_free_from i a = UINT64_MAX.
Proof.
  induction 1 as [|b rest Hb _ IH]; intros i; simpl; [reflexivity|].
  rewrite Hb. apply IH.
Qed.

Lemma dequeue_write_no_space (m : machine) :
  op_len (op m) = block_size (bs m) ->
  Forall (fun b => b = true) (data_alloc (bs m)) ->
  dequeue_write m = Ok (1, callback (with_op m (set_retval (op m) (- ENOSPC)))).
Proof.
  intros Hlen Hfull. unfold dequeue_write.
  rewrite Hlen, Z.eqb_refl. unfold dequeue_write_big, allocator_find_free.
  now rewrite (find_free_from_full _ Hfull).
Qed.

(** C5.  A big write dispatched when every data block is taken fails with
    the no-space error: [retval] is [-ENOSPC], the callback runs on the
    operation, [dequeue_write] returns 1 so that the operation leaves the
    queue, and the ring holds no new request. *)
Theorem big_write_without_free_block_fails (m : machine) :
  op_len (op m) = block_size (bs m) ->
  Forall (fun b => b = true) (data_alloc (bs m)) ->
  exists m',
    dequeue_write m = Ok (1, m') /\
    op_retval (op m') = - ENOSPC /\
    callbacks m' = callbacks m ++ [op m'] /\
    ring (bs m') = ring (bs m).
Proof.
  intros Hlen Hfull. eexists. split.
  - apply dequeue_write_no_space; assumption.
  - simpl. auto.
Qed.

(** C10.  The no-space failure of a big write changes nothing but the
    operation's [retval]: allocator, dirty index (state and location of
    every entry) and journal are the ones before the call. *)
Theorem big_write_no_space_changes_only_retval (m : machine) :
  op_len (op m) = block_size (bs m) ->
  Forall (fun b => b = true) (data_alloc (bs m)) ->
  exists m',
    dequeue_write m = Ok (1, m') /\
    op m' = set_retval (op m) (- ENOSPC) /\
    bs m' = bs m /\
    data_alloc (bs m') = data_alloc (bs m) /\
    dirty_db (bs m') = dirty_db (bs m) /\
    journal (bs m') = journal (bs m).
Proof.
  intros Hlen Hfull. eexists. split.
  - apply dequeue_write_no_space; assumption.
  - simpl. auto 6.
Qed.

(** ** What a small write does to the journal *)

Lemma sector_info_update_fields (j j' : journal_t) (i : Z)
    (f : journal_sector_info_t -> journal_sector_info_t) :
  sector_info_update j i f = Ok j' ->
  j' = set_sector_info j (sector_info j').
Proof.
  unfold sector_info_update, bind, deref.
  destruct (nth_error (sector_info j) (Z.to_nat i)); [|discriminate].
  intros [= <-]. reflexivity.
Qed.

Lemma next_sector_fields (j j' : journal_t) :
  next_sector j = Ok j' ->
  crc32_last j' = crc32_last j /\ journal_len j' = journal_len j /\
  next_free j' =
    (if sector_is_full j
     then if u64 (next_free j + 512) >=? journal_len j
          then u64 (next_free j + 512) else 512
     else next_free j).
Proof.
  unfold next_sector, bind.
  destruct (sector_is_full j); [|intros [= <-]; auto].
  destruct (umod _ _) as [i| |]; [|discriminate|discriminate].
  destruct (sector_info_update _ _ _) as [j1| |] eqn:Hup;
    [|discriminate|discriminate].
  apply sector_info_update_fields in Hup.
  intros [= <-]. rewrite Hup. simpl. auto.
Qed.

(** The journal a dispatched small write leaves behind, field by field. *)
Lemma dequeue_write_small_journal (m : machine) (it : option nat)
    (r : Z) (m' : machine) :
  dequeue_write_small m it = Ok (r, m') ->
  (r = 0 /\ journal (bs m') = journal (bs m)) \/
  (r = 1 /\
   exists j1, next_sector (journal (bs m)) = Ok j1 /\
     let je := small_write_entry j1 (op m) in
     let j' := journal (bs m') in
     let placed := if u64 (journal_len j1 - next_free j1) <? op_len (op m)
                   then 512 else next_free j1 in
     sector_buf j' = sector_store (sector_buf j1)
                       (512 * cur_sector j1 + in_sector_pos j1) je /\
     cur_sector j' = cur_sector j1 /\
     in_sector_pos j' = in_sector_pos j1 /\
     crc32_last j' = e_crc32 je /\
     journal_len j' = journal_len j1 /\
     next_free j' = (if u64 (placed + op_len (op m)) >=? journal_len j1
                     then 512 else u64 (placed + op_len (op m)))).
Proof.
  unfold dequeue_write_small.
  destruct (sector_buffer_busy (journal (bs m))) as [busy| |];
    [|discriminate|discriminate].
  unfold bind at 1.
  destruct busy; [intros [= <- <-]; left; auto|].
  destruct (reservation_end _ _ >=? _); [intros [= <- <-]; left; auto|].
  unfold BS_GET_SQE.
  destruct (get_sqe (ring (bs m))) as [[sqe1 r1]|];
    [|intros [= <- <-]; left; auto].
  cbn [bs with_bs ring set_ring op].
  destruct (get_sqe r1) as [[sqe2 r2]|]; [|intros [= <- <-]; left; auto].
  destruct (next_sector (journal (bs m))) as [j1| |] eqn:Hns;
    [|discriminate|discriminate].
  unfold bind at 1.
  cbn [bs with_bs ring set_ring op journal set_sector_buf sector_info
       cur_sector].
  destruct (deref (nth_error (sector_info j1) (Z.to_nat (cur_sector j1))))
    as [s| |]; [|discriminate|discriminate].
  unfold bind at 1.
  destruct (dirty_assign _ _ _ _) as [db| |]; [|discriminate|discriminate].
  unfold bind at 1.
  destruct (sector_info_update _ _ _) as [j4| |] eqn:Hup;
    [|discriminate|discriminate].
  unfold bind at 1.
  apply sector_info_update_fields in Hup.
  intros [= <- <-]. right. split; [reflexivity|].
  exists j1. split; [reflexivity|].
  cbn [bs with_bs journal set_journal op with_op]. rewrite Hup. clear Hup.
  cbn [journal_len next_free set_sector_buf].
  destruct (u64 (journal_len j1 - next_free j1) <? op_len (op m));
    cbn [journal_len next_free set_sector_buf set_next_free];
    destruct (_ >=? _);
    cbn [journal_len next_free sector_buf cur_sector in_sector_pos crc32_last
         set_sector_buf set_next_free set_sector_info set_crc32_last];
    auto 7.
Qed.

Lemma dequeue_write_big_journal (m : machine) (it : option nat)
    (r : Z) (m' : machine) :
  dequeue_write_big m it = Ok (r, m') ->
  journal (bs m') = journal (bs m) /\ block_size (bs m') = block_size (bs m).
Proof.
  unfold dequeue_write_big.
  destruct (allocator_find_free _ =? UINT64_MAX); [intros [= <- <-]; auto|].
  unfold BS_GET_SQE.
  destruct (get_sqe (ring (bs m))) as [[sqe r1]|]; [|intros [= <- <-]; auto].
  destruct (dirty_assign _ _ _ _) as [db| |]; [|discriminate|discriminate].
  unfold bind. intros [= <- <-]. auto.
Qed.

Lemma dequeue_write_small_block_size (m : machine) (it : option nat)
    (r : Z) (m' : machine) :
  dequeue_write_small m it = Ok (r, m') ->
  block_size (bs m') = block_size (bs m).
Proof.
  unfold dequeue_write_small.
  destruct (sector_buffer_busy (journal (bs m))) as [busy| |];
    [|discriminate|discriminate].
  unfold bind at 1.
  destruct busy; [intros [= <- <-]; auto|].
  destruct (reservation_end _ _ >=? _); [intros [= <- <-]; auto|].
  unfold BS_GET_SQE.
  destruct (get_sqe (ring (bs m))) as [[sqe1 r1]|]; [|intros [= <- <-]; auto].
  cbn [bs with_bs ring set_ring op].
  destruct (get_sqe r1) as [[sqe2 r2]|]; [|intros [= <- <-]; auto].
  destruct (next_sector (journal (bs m))) as [j1| |];
    [|discriminate|discriminate].
  unfold bind at 1.
  destruct (deref _) as [s| |]; [|discriminate|discriminate].
  unfold bind at 1.
  destruct (dirty_assign _ _ _ _) as [db| |]; [|discriminate|discriminate].
  unfold bind at 1.
  destruct (sector_info_update _ _ _) as [j4| |]; [|discriminate|discriminate].
  unfold bind at 1. intros [= <- <-]. reflexivity.
Qed.

Lemma sector_load_store (b : sector_buf_t) (at_ : Z)
    (e : journal_entry_small_write) :
  sector_load (sector_store b at_ e) at_ = Some e.
Proof. unfold sector_store. simpl. now rewrite Z.eqb_refl. Qed.

(** One call of [dequeue_write]: a dispatched small write leaves its entry,
    chained to [crc32_last], and moves [crc32_last] to it; any other
    outcome leaves [crc32_last] alone. *)
Lemma dequeue_write_crc_step (m : machine) (r : Z) (m' : machine) :
  dequeue_write m = Ok (r, m') ->
  block_size (bs m') = block_size (bs m) /\
  if (r =? 1) && negb (op_len (op m) =? block_size (bs m))
  then exists e,
      appended_entry m' = Some e /\
      e_crc32_prev e = crc32_last (journal (bs m)) /\
      e_crc32 e = je_crc32 (set_e_crc32 e 0) /\
      crc32_last (journal (bs m')) = e_crc32 e
  else crc32_last (journal (bs m')) = crc32_last (journal (bs m)).
Proof.
  unfold dequeue_write.
  destruct (op_len (op m) =? block_size (bs m)).
  - intros H. apply dequeue_write_big_journal in H as [J B].
    split; [exact B|]. rewrite andb_false_r. now rewrite J.
  - intros H. split; [eapply dequeue_write_small_block_size, H|].
    apply dequeue_write_small_journal in H
      as [[-> J]|[-> (j1 & Hns & Hbuf & Hcur & Hpos & Hcrc & _)]].
    + simpl. now rewrite J.
    + simpl. exists (small_write_entry j1 (op m)).
      apply next_sector_fields in Hns as (Hlast & _).
      unfold appended_entry. rewrite Hbuf, Hcur, Hpos, sector_load_store.
      repeat split; [|exact Hcrc].
      simpl. exact Hlast.
Qed.

Lemma crc_chain_app (es1 es2 : list journal_entry_small_write) :
  forall prev, crc_chain prev es1 -> crc_chain (chain_end prev es1) es2 ->
               crc_chain prev (es1 ++ es2).
Proof.
  unfold chain_end.
  induction es1 as [|e rest IH]; intros prev H1 H2; simpl in *; [exact H2|].
  destruct H1 as (Hp & Hc & Hrest). auto.
Qed.

Lemma chain_end_app (es1 es2 : list journal_entry_small_write) (prev : Z) :
  chain_end prev (es1 ++ es2) = chain_end (chain_end prev es1) es2.
Proof. unfold chain_end. apply fold_left_app. Qed.

(** C3.  Over any sequence of [dequeue_write] calls, the journal entries of
    the small writes that were dispatched form one checksum chain in
    dispatch order: the first names the [crc32_last] the sequence started
    from, each later one names the [crc32] of the entry before it, each
    carries the checksum of itself, and [crc32_last] ends as the [crc32]
    of the last entry.  Every dispatched small write has its entry in the
    chain. *)
Theorem small_write_entries_form_crc_chain
    (ops : list blockstore_operation) :
  forall (m : machine) (rets : list Z)
         (es : list journal_entry_small_write) (m' : machine),
    dispatch_writes ops m = Ok (rets, es, m') ->
    crc_chain (crc32_last (journal (bs m))) es /\
    crc32_last (journal (bs m')) = chain_end (crc32_last (journal (bs m))) es /\
    length es
      = length (filter (dispatched_small (block_size (bs m)))
                       (combine ops rets)).
Proof.
  induction ops as [|o rest IH]; intros m rets es m'; simpl.
  - intros [= <- <- <-]. simpl. auto.
  - destruct (dequeue_write (with_op m o)) as [[r m1]| |] eqn:Hstep;
      [|discriminate|discriminate].
    unfold bind at 1. cbn [fst snd].
    destruct (dispatch_writes rest m1) as [[[rets1 es1] m2]| |] eqn:Hrest;
      [|discriminate|discriminate].
    unfold bind. cbn [fst snd]. intros [= <- <- <-].
    apply dequeue_write_crc_step in Hstep as [Hbs Hstep].
    cbn [op with_op bs] in Hstep, Hbs.
    destruct (IH _ _ _ _ Hrest) as (Hchain & Hlast & Hlen).
    rewrite Hbs in Hlen.
    unfold dispatched_small at 1. cbn [fst snd combine filter].
    destruct ((r =? 1) && negb (op_len o =? block_size (bs m))).
    + destruct Hstep as (e & -> & Hprev & Hself & Hcrc).
      rewrite Hcrc in Hchain, Hlast.
      simpl. rewrite Hlen. repeat split; auto.
    + rewrite Hstep in Hchain, Hlast. simpl. auto.
Qed.

(** X15.  A dispatched small write keeps [next_free] between the header sector
    and the end of the journal. *)
Lemma small_write_next_free_in_range (m : machine) (it : option nat)
    (m' : machine) :
  dequeue_write_small m it = Ok (1, m') ->
  512 <= next_free (journal (bs m)) < journal_len (journal (bs m)) ->
  journal_len (journal (bs m)) <= 2 ^ 63 ->
  0 <= op_len (op m) < 2 ^ 32 ->
  512 <= next_free (journal (bs m')) < journal_len (journal (bs m')).
Proof.
  intros H Hnf Hlen Hop.
  change (2 ^ 63) with 9223372036854775808 in Hlen.
  change (2 ^ 32) with 4294967296 in Hop.
  apply dequeue_write_small_journal in H
    as [[[=] _]|[_ (j1 & Hns & _ & _ & _ & _ & Hl & Hfree)]].
  apply next_sector_fields in Hns as (_ & Hl1 & Hnf1).
  cbv zeta in Hfree. rewrite Hl, Hfree. clear Hfree Hl.
  assert (H1 : 512 <= next_free j1 < 9223372036854775808 + 512).
  { rewrite Hnf1. unfold u64. change (2 ^ 64) with 18446744073709551616.
    destruct (sector_is_full _); [|lia].
    destruct (_ >=? _); [|lia].
    rewrite Z.mod_small; lia. }
  set (placed := if u64 (journal_len j1 - next_free j1) <? op_len (op m)
                 then 512 else next_free j1) in *.
  assert (H2 : 512 <= placed < 9223372036854775808 + 512)
    by (subst placed; destruct (_ <? _); lia).
  unfold u64 in *. change (2 ^ 64) with 18446744073709551616 in *.
  destruct ((placed + op_len (op m)) mod _ >=? journal_len j1) eqn:E; [lia|].
  rewrite Z.geb_leb in E. apply Z.leb_gt in E.
  rewrite Z.mod_small in * by lia. lia.
Qed.

(** ** blockstore.h: order of keys, stripe numbers *)

Lemma ov_ltb_irrefl (a : obj_ver_id) : ov_ltb a a = false.
Proof. destruct a as [[ai asx] av]. order_bools. lia. Qed.

Lemma ov_ltb_trans (a b c : obj_ver_id) :
  ov_ltb a b = true -> ov_ltb b c = true -> ov_ltb a c = true.
Proof.
  destruct a as [[ai asx] av], b as [[bi bsx] bv], c as [[ci csx] cv].
  intros H1 H2. order_bools. lia.
Qed.

Lemma ov_ltb_total (a b : obj_ver_id) :
  ov_ltb a b = true \/ ov_ltb b a = true \/ a = b.
Proof.
  destruct a as [[ai asx] av], b as [[bi bsx] bv].
  destruct (Z.lt_total ai bi) as [H|[H|H]];
    [left; order_bools; lia| |right; left; order_bools; lia].
  subst bi.
  destruct (Z.lt_total asx bsx) as [H|[H|H]];
    [left; order_bools; lia| |right; left; order_bools; lia].
  subst bsx.
  destruct (Z.lt_total av bv) as [H|[H|H]];
    [left; order_bools; lia| |right; left; order_bools; lia].
  subst bv. right. right. reflexivity.
Qed.

(** X1.  [operator <] on [obj_ver_id] is the strict total order a
    [std::map] key needs: nothing is below itself, the order is
    transitive, and of two different keys one is below the other. *)
Theorem obj_ver_id_strict_total_order :
  (forall a, ov_ltb a a = false) /\
  (forall a b c, ov_ltb a b = true -> ov_ltb b c = true ->
                 ov_ltb a c = true) /\
  (forall a b, ov_ltb a b = true \/ ov_ltb b a = true \/ a = b).
Proof.
  split; [exact ov_ltb_irrefl|]. split; [exact ov_ltb_trans|].
  exact ov_ltb_total.
Qed.

(** X2.  [STRIPE_NUM] and [STRIPE_REPLICA] split a stripe id without loss:
    the replica index is one of 0..15 and the id is sixteen times the
    stripe number plus the replica index. *)
Theorem stripe_num_replica_split (stripe_id : Z) :
  0 <= STRIPE_REPLICA stripe_id < 16 /\
  stripe_id = 16 * STRIPE_NUM stripe_id + STRIPE_REPLICA stripe_id.
Proof.
  unfold STRIPE_NUM, STRIPE_REPLICA.
  change 15 with (Z.ones 4).
  rewrite Z.land_ones, Z.shiftr_div_pow2 by lia.
  change (2 ^ 4) with 16. split.
  - apply Z.mod_pos_bound. lia.
  - apply Z.div_mod. lia.
Qed.

(** ** [read_vec] stays a chain of disjoint ranges *)

Lemma u32_small (x : Z) : 0 <= x < 2 ^ 32 -> u32 x = x.
Proof. intros H. unfold u32. now apply Z.mod_small. Qed.

Lemma u64_small (x : Z) : 0 <= x < 2 ^ 32 -> u64 x = x.
Proof.
  intros H. unfold u64. apply Z.mod_small.
  change (2 ^ 32) with 4294967296 in H.
  change (2 ^ 64) with 18446744073709551616. lia.
Qed.

Lemma rv_chain_raise (off lo lo' hi : Z) (nodes : read_vec_t) :
  rv_chain off lo hi nodes -> starts_from lo' nodes ->
  rv_chain off lo' hi nodes.
Proof.
  destruct nodes as [|[k v] rest]; simpl; [auto|]. intuition.
Qed.

Lemma rv_chain_app_ends (off : Z) (before : read_vec_t) :
  forall lo hi first second rest,
    rv_chain off lo hi (before ++ (first, second) :: rest) ->
    Forall (ends_by first) before /\ lo <= first /\
    first + iov_len second <= hi /\ 0 < iov_len second /\
    starts_from (first + iov_len second) rest.
Proof.
  induction before as [|[k v] b IH]; intros lo hi first second rest H.
  - simpl in H. destruct H as (H1 & H2 & H3 & _ & H5).
    repeat split; auto.
    destruct rest as [|[k1 v1] r]; simpl in *; [auto|tauto].
  - simpl in H. destruct H as (H1 & H2 & H3 & _ & H5).
    destruct (IH _ _ _ _ _ H5) as (F & L & E & P & S).
    split; [|repeat split; auto; lia].
    constructor; [|exact F]. unfold ends_by. simpl. lia.
Qed.

Lemma rv_chain_insert (off k : Z) (v : iovec) (before : read_vec_t) :
  forall lo hi nodes,
    rv_chain off lo hi (before ++ nodes) ->
    Forall (ends_by k) before ->
    lo <= k -> 0 < iov_len v -> k + iov_len v <= hi ->
    iov_base v = OpBuf (k - off) ->
    starts_from (k + iov_len v) nodes ->
    rv_chain off lo hi (before ++ (k, v) :: nodes).
Proof.
  induction before as [|[k0 v0] b IH];
    intros lo hi nodes Hc Hends Hlo Hpos Hhi Hbase Hnext.
  - simpl in *. repeat split; auto.
    eapply rv_chain_raise; eassumption.
  - simpl in *. destruct Hc as (H1 & H2 & H3 & H4 & H5).
    inversion Hends as [|? ? He Hb]; subst. unfold ends_by in He.
    simpl in He. repeat split; auto.
Qed.

Lemma rv_insert_middle (k : Z) (v : iovec) (before : read_vec_t) :
  forall nodes,
    Forall (fun e => fst e < k) before ->
    starts_from (k + 1) nodes ->
    rv_insert k v (before ++ nodes) = before ++ (k, v) :: nodes.
Proof.
  induction before as [|[k0 v0] b IH]; intros nodes Hb Hn.
  - simpl. destruct nodes as [|[f s] r]; [reflexivity|].
    simpl in *. replace (k <? f) with true; [reflexivity|].
    symmetry. apply Z.ltb_lt. lia.
  - inversion Hb as [|? ? Hk Hb']; subst. simpl in *.
    replace (k <? k0) with false by (symmetry; apply Z.ltb_ge; lia).
    replace (k =? k0) with false by (symmetry; apply Z.eqb_neq; lia).
    now rewrite IH.
Qed.

Lemma rv_chain_keys (off : Z) (before : read_vec_t) :
  forall lo hi nodes k,
    rv_chain off lo hi (before ++ nodes) ->
    Forall (ends_by k) before -> Forall (fun e => fst e < k) before.
Proof.
  induction before as [|[k0 v0] b IH]; intros lo hi nodes k Hc Hends;
    [constructor|].
  simpl in Hc. destruct Hc as (_ & Hpos & _ & _ & Hrest).
  inversion Hends as [|? ? He Hb]; subst. unfold ends_by in He.
  simpl in He. constructor; [simpl; lia|]. eapply IH; eassumption.
Qed.

Lemma ring_grows_refl (m : machine) : ring_grows m m [].
Proof.
  unfold ring_grows. rewrite app_nil_r.
  destruct (bs m) as [a b c d e f g h i r]. destruct r. reflexivity.
Qed.

Lemma ring_grows_trans (m1 m2 m3 : machine) (x y : list io_uring_sqe) :
  ring_grows m1 m2 x -> ring_grows m2 m3 y -> ring_grows m1 m3 (x ++ y).
Proof.
  unfold ring_grows. intros H1 H2. rewrite H2, H1. simpl.
  now rewrite app_assoc.
Qed.

Lemma list_set_last {A : Type} (l : list A) (x y : A) :
  list_set (l ++ [x]) (length l) y = l ++ [y].
Proof. induction l as [|a l IH]; simpl; [|rewrite IH]; reflexivity. Qed.

(** What one call of [fulfill_read_push] does: either it queues the read
    of the whole range and enters it in [read_vec], or it leaves both the
    ring and [read_vec] alone. *)
Lemma fulfill_read_push_effect (m : machine) (a st v loc s e r : Z)
    (m1 : machine) :
  fulfill_read_push m a st v loc s e = (r, m1) ->
  op_offset (op m1) = op_offset (op m) /\
  op_len (op m1) = op_len (op m) /\
  op_addr m1 = op_addr m /\
  (r = 0 \/ r = -1) /\
  ((r = 0 /\ s < e /\
    op_read_vec (op m1)
      = rv_insert s {| iov_base := OpBuf (s - op_offset (op m));
                       iov_len := u32 (e - s) |} (op_read_vec (op m)) /\
    ring_grows m m1 [read_request m a st loc s e]) \/
   (op_read_vec (op m1) = op_read_vec (op m) /\ bs m1 = bs m /\
    (r = 0 -> st <> ST_IN_FLIGHT -> is_deleted st = false -> e <= s))).
Proof.
  unfold fulfill_read_push.
  destruct (s <? e) eqn:Hse.
  2:{ intros [= <- <-]. apply Z.ltb_ge in Hse.
      do 3 (split; [reflexivity|]). split; [now left|].
      right. auto. }
  apply Z.ltb_lt in Hse.
  destruct (st =? ST_IN_FLIGHT) eqn:Hst.
  { intros [= <- <-]. simpl.
    do 3 (split; [reflexivity|]). split; [now right|].
    right. do 2 (split; [reflexivity|]). discriminate. }
  destruct (is_deleted st) eqn:Hdel.
  { intros [= <- <-]. simpl.
    do 3 (split; [reflexivity|]). split; [now left|].
    right. do 2 (split; [reflexivity|]). discriminate. }
  destruct (get_sqe (ring (bs m))) as [[sqe r1]|] eqn:Hsqe.
  2:{ intros [= <- <-]. simpl.
      do 3 (split; [reflexivity|]). split; [now right|].
      right. do 2 (split; [reflexivity|]). discriminate. }
  intros [= <- <-]. simpl.
  do 3 (split; [reflexivity|]). split; [now left|].
  left. do 3 (split; [auto|]).
  unfold get_sqe in Hsqe.
  destruct (Z.of_nat (length (sq (ring (bs m)))) <? sq_entries (ring (bs m)));
    [|discriminate].
  injection Hsqe as <- <-.
  unfold ring_grows, prep, read_request. simpl.
  now rewrite list_set_last.
Qed.

(** What [fulfill_read_loop] establishes, from the point where the nodes
    [before] lie behind [cur_start] and [nodes] are still to come. *)
Lemma fulfill_read_loop_chain (a st v loc item_end : Z) (nodes : read_vec_t) :
  forall (m : machine) (before : read_vec_t) (cur_start r : Z) (m' : machine),
    fulfill_read_loop nodes m a st v loc cur_start item_end = (r, m') ->
    request_ok (op m) ->
    op_read_vec (op m) = before ++ nodes ->
    rv_chain (op_offset (op m)) (op_offset (op m))
             (op_offset (op m) + op_len (op m)) (before ++ nodes) ->
    Forall (ends_by cur_start) before ->
    op_offset (op m) <= cur_start ->
    item_end <= op_offset (op m) + op_len (op m) ->
    op_offset (op m') = op_offset (op m) /\
    op_len (op m') = op_len (op m) /\
    op_addr m' = op_addr m /\
    (r = 0 \/ r = -1) /\
    rv_chain (op_offset (op m)) (op_offset (op m))
             (op_offset (op m) + op_len (op m)) (op_read_vec (op m')) /\
    (forall e, In e (op_read_vec (op m)) -> In e (op_read_vec (op m'))) /\
    (exists extra,
        ring_grows m m' extra /\
        Forall (is_read_of (op_addr m)) extra /\
        (length (op_read_vec (op m'))
         = length (op_read_vec (op m)) + length extra)%nat) /\
    (r = 0 -> st <> ST_IN_FLIGHT -> is_deleted st = false ->
     forall x, cur_start <= x < item_end -> rv_covers (op_read_vec (op m')) x).
Proof.
  induction nodes as [|[first second] rest IH];
    intros m before cur_start r m' Hrun Hreq Hrv Hchain Hends Hlo Hhi.
  - (* the call after the loop, at end() *)
    simpl in Hrun.
    destruct (fulfill_read_push m a st v loc cur_start item_end)
      as [r1 m1] eqn:Hpush.
    apply fulfill_read_push_effect in Hpush
      as (Hoff & Hlen & Haddr & Hr & Heff).
    assert (Hm : m' = m1 /\ r = r1)
      by (destruct Hr as [-> | ->]; simpl in Hrun;
          injection Hrun as <- <-; auto).
    destruct Hm as [-> ->]. clear Hrun.
    destruct Hreq as (Ho & Hl & Hw).
    rewrite app_nil_r in *.
    do 4 (split; [assumption|]).
    destruct Heff as [(Hz & Hlt & Hins & Hring) | (Hsame & Hbs & Hempty)].
    + assert (Hu : u32 (item_end - cur_start) = item_end - cur_start)
        by (apply u32_small; lia).
      rewrite Hu in Hins.
      assert (Hnew : op_read_vec (op m1)
                     = before ++ [(cur_start,
                          {| iov_base := OpBuf (cur_start - op_offset (op m));
                             iov_len := item_end - cur_start |})]).
      { rewrite Hins, Hrv.
        rewrite <- (app_nil_r before) at 1.
        apply rv_insert_middle; [|exact I].
        eapply rv_chain_keys with (nodes := []); [|exact Hends].
        rewrite app_nil_r. exact Hchain. }
      split; [|split; [|split]].
      * rewrite Hnew.
        apply rv_chain_insert; simpl; auto; try lia.
        rewrite app_nil_r. exact Hchain.
      * intros e He. rewrite Hnew. rewrite Hrv in He.
        apply in_or_app. now left.
      * eexists. split; [exact Hring|]. split.
        { constructor; [|constructor]. unfold is_read_of, read_request.
          eauto. }
        rewrite Hnew, Hrv, length_app. reflexivity.
      * intros _ _ _ x Hx. exists cur_start. eexists. split.
        { rewrite Hnew. apply in_or_app. right. left. reflexivity. }
        simpl. lia.
    + split; [|split; [|split]].
      * rewrite Hsame, Hrv. exact Hchain.
      * intros e He. now rewrite Hsame.
      * exists []. split.
        { unfold ring_grows. rewrite Hbs. apply ring_grows_refl. }
        split; [constructor|]. rewrite Hsame. simpl. lia.
      * intros Hz Hst Hdel x Hx. specialize (Hempty Hz Hst Hdel). lia.
  - simpl in Hrun.
    destruct Hreq as (Ho & Hl & Hw).
    destruct (rv_chain_app_ends _ _ _ _ _ _ _ Hchain)
      as (Hbefore & Hfirst & Hend & Hpos & Hnext).
    destruct (first <? item_end) eqn:Hfe.
    + (* a node inside the item: fill the gap before it, step over it *)
      apply Z.ltb_lt in Hfe.
      assert (Hu1 : u32 first = first) by (apply u32_small; lia).
      assert (Hu2 : u32 (first + iov_len second) = first + iov_len second)
        by (apply u32_small; lia).
      rewrite Hu1, Hu2 in Hrun.
      destruct (fulfill_read_push m a st v loc cur_start first)
        as [r1 m1] eqn:Hpush.
      apply fulfill_read_push_effect in Hpush
        as (Hoff & Hlen & Haddr & Hr & Heff).
      assert (Hstep :
        exists gap,
          op_read_vec (op m1) = (before ++ gap ++ [(first, second)]) ++ rest /\
          rv_chain (op_offset (op m)) (op_offset (op m))
                   (op_offset (op m) + op_len (op m))
                   ((before ++ gap ++ [(first, second)]) ++ rest) /\
          (exists extra, ring_grows m m1 extra /\
                         Forall (is_read_of (op_addr m)) extra /\
                         length gap = length extra) /\
          Forall (ends_by first) gap /\
          (r1 = 0 -> st <> ST_IN_FLIGHT -> is_deleted st = false ->
           forall x, cur_start <= x < first -> rv_covers gap x)).
      { destruct Heff as [(Hz & Hlt & Hins & Hring) | (Hsame & Hbs & Hempty)].
        - assert (Hu : u32 (first - cur_start) = first - cur_start)
            by (apply u32_small; lia).
          rewrite Hu in Hins.
          exists [(cur_start,
                   {| iov_base := OpBuf (cur_start - op_offset (op m));
                      iov_len := first - cur_start |})].
          assert (Hnew :
            rv_insert cur_start
              {| iov_base := OpBuf (cur_start - op_offset (op m));
                 iov_len := first - cur_start |}
              (before ++ (first, second) :: rest)
            = before ++ (cur_start,
                         {| iov_base := OpBuf (cur_start - op_offset (op m));
                            iov_len := first - cur_start |})
                     :: (first, second) :: rest).
          { apply rv_insert_middle; [|simpl; lia].
            eapply rv_chain_keys; [exact Hchain|exact Hends]. }
          split; [|split; [|split; [|split]]].
          + rewrite Hins, Hrv, Hnew. now rewrite <- !app_assoc.
          + rewrite <- !app_assoc. simpl.
            apply rv_chain_insert; simpl; auto; lia.
          + eexists. split; [exact Hring|]. split; [|reflexivity].
            constructor; [|constructor]. unfold is_read_of, read_request.
            eauto.
          + constructor; [|constructor]. unfold ends_by. simpl. lia.
          + intros _ _ _ x Hx. exists cur_start. eexists.
            split; [left; reflexivity|]. simpl. lia.
        - exists []. split; [|split; [|split; [|split]]].
          + rewrite Hsame, Hrv. now rewrite <- !app_assoc.
          + rewrite <- !app_assoc. exact Hchain.
          + exists []. split.
            { unfold ring_grows. rewrite Hbs. apply ring_grows_refl. }
            split; [constructor|reflexivity].
          + constructor.
          + intros Hz Hst Hdel x Hx. specialize (Hempty Hz Hst Hdel). lia. }
      destruct Hstep as (gap & Hrv1 & Hchain1
                         & (extra1 & Hring1 & Hreads1 & Hlen1)
                         & Hgap & Hcov1).
      assert (Hkeep : forall e, In e (op_read_vec (op m)) ->
                                In e (op_read_vec (op m1))).
      { intros e He. rewrite Hrv1. rewrite Hrv in He.
        apply in_app_or in He. rewrite <- !app_assoc.
        apply in_or_app. destruct He as [He|He]; [now left|right].
        apply in_or_app. right. exact He. }
      destruct (r1 <? 0) eqn:Hneg.
      { (* the push asked to wait *)
        injection Hrun as <- <-.
        assert (r1 = -1) as ->
          by (destruct Hr as [-> | ->]; [discriminate|auto]).
        do 3 (split; [assumption|]). split; [now right|].
        split; [|split; [|split]].
        - rewrite Hrv1. exact Hchain1.
        - exact Hkeep.
        - exists extra1. split; [exact Hring1|]. split; [exact Hreads1|].
          rewrite Hrv1, Hrv, <- Hlen1, !length_app. simpl. lia.
        - discriminate. }
      assert (r1 = 0) as ->
        by (destruct Hr as [-> | ->]; [auto|discriminate]).
      rewrite <- Hoff, <- Hlen in Hchain1.
      assert (Hreq1 : request_ok (op m1))
        by (unfold request_ok; rewrite Hoff, Hlen; auto).
      destruct (IH m1 (before ++ gap ++ [(first, second)])
                   (first + iov_len second) r m' Hrun Hreq1 Hrv1 Hchain1)
        as (Hoff2 & Hlen2 & Haddr2 & Hr2 & Hchain2 & Hin2
            & (extra2 & Hring2 & Hreads2 & Hlen2') & Hcov2).
      { apply Forall_app. split.
        - eapply Forall_impl; [|exact Hbefore].
          unfold ends_by. intros e He. lia.
        - apply Forall_app. split.
          + eapply Forall_impl; [|exact Hgap].
            unfold ends_by. intros e He. lia.
          + constructor; [|constructor]. unfold ends_by. simpl. lia. }
      { rewrite Hoff. lia. }
      { rewrite Hoff, Hlen. exact Hhi. }
      rewrite Hoff, Hlen in *.
      split; [congruence|]. split; [congruence|]. split; [congruence|].
      split; [exact Hr2|]. split; [exact Hchain2|].
      split; [|split].
      * intros e He. apply Hin2, Hkeep, He.
      * exists (extra1 ++ extra2). split.
        { eapply ring_grows_trans; eassumption. }
        split.
        { apply Forall_app. split; [exact Hreads1|].
          now rewrite <- Haddr. }
        rewrite Hlen2', Hrv1, Hrv, !length_app, <- Hlen1. simpl. lia.
      * intros Hz Hst Hdel x Hx.
        destruct (Z.lt_ge_cases x first) as [Hx1|Hx1].
        { destruct (Hcov1 eq_refl Hst Hdel x) as (k & iov & Hin & Hk); [lia|].
          exists k, iov. split; [|exact Hk].
          apply Hin2. rewrite Hrv1, <- !app_assoc.
          apply in_or_app. right. apply in_or_app. now left. }
        destruct (Z.lt_ge_cases x (first + iov_len second)) as [Hx2|Hx2].
        { exists first, second. split; [|lia].
          apply Hin2. rewrite Hrv1, <- !app_assoc.
          apply in_or_app. right. apply in_or_app. right. now left. }
        apply Hcov2; auto. lia.
    + (* the node lies behind the item: the call after the loop *)
      apply Z.ltb_ge in Hfe.
      destruct (fulfill_read_push m a st v loc cur_start item_end)
        as [r1 m1] eqn:Hpush.
      apply fulfill_read_push_effect in Hpush
        as (Hoff & Hlen & Haddr & Hr & Heff).
      assert (Hm : m' = m1 /\ r = r1)
        by (destruct Hr as [-> | ->]; simpl in Hrun;
            injection Hrun as <- <-; auto).
      destruct Hm as [-> ->]. clear Hrun.
      do 4 (split; [assumption|]).
      destruct Heff as [(Hz & Hlt & Hins & Hring) | (Hsame & Hbs & Hempty)].
      * assert (Hu : u32 (item_end - cur_start) = item_end - cur_start)
          by (apply u32_small; lia).
        rewrite Hu in Hins.
        assert (Hnew : op_read_vec (op m1)
                       = before ++ (cur_start,
                            {| iov_base := OpBuf (cur_start - op_offset (op m));
                               iov_len := item_end - cur_start |})
                                :: (first, second) :: rest).
        { rewrite Hins, Hrv. apply rv_insert_middle; [|simpl; lia].
          eapply rv_chain_keys; [exact Hchain|exact Hends]. }
        split; [|split; [|split]].
        -- rewrite Hnew. apply rv_chain_insert; simpl; auto; lia.
        -- intros e He. rewrite Hnew. rewrite Hrv in He.
           apply in_app_or in He. apply in_or_app.
           destruct He as [He|He]; [now left|right; now right].
        -- eexists. split; [exact Hring|]. split.
           { constructor; [|constructor]. unfold is_read_of, read_request.
             eauto. }
           rewrite Hnew, Hrv, !length_app. simpl. lia.
        -- intros _ _ _ x Hx. exists cur_start. eexists. split.
           { rewrite Hnew. apply in_or_app. right. left. reflexivity. }
           simpl. lia.
      * split; [|split; [|split]].
        -- rewrite Hsame, Hrv. exact Hchain.
        -- intros e He. now rewrite Hsame.
        -- exists []. split.
           { unfold ring_grows. rewrite Hbs. apply ring_grows_refl. }
           split; [constructor|]. rewrite Hsame. simpl. lia.
        -- intros Hz Hst Hdel x Hx. specialize (Hempty Hz Hst Hdel). lia.
Qed.

Lemma rv_lower_bound_prefix (k : Z) (rv : read_vec_t) :
  Forall (fun e => fst e < k) (firstn (rv_lower_bound k rv) rv).
Proof.
  induction rv as [|[k0 v0] rest IH]; simpl; [constructor|].
  destruct (k0 <? k) eqn:E; simpl; [|constructor].
  apply Z.ltb_lt in E. constructor; [exact E|exact IH].
Qed.

Lemma firstn_nth_split {A : Type} (l : list A) (n : nat) (x : A) :
  nth_error l n = Some x ->
  firstn (S n) l = firstn n l ++ [x] /\
  l = firstn n l ++ x :: skipn (S n) l.
Proof.
  revert n. induction l as [|y l IH]; intros [|n] H; simpl in *;
    try discriminate.
  - injection H as ->. auto.
  - destruct (IH n H) as [H1 H2]. split; [now rewrite H1|].
    f_equal. exact H2.
Qed.

Lemma rv_lower_bound_le (k : Z) (rv : read_vec_t) :
  (rv_lower_bound k rv <= length rv)%nat.
Proof.
  induction rv as [|[k0 v0] r IH]; simpl; [lia|].
  destruct (k0 <? k); simpl; lia.
Qed.

(** The nodes in front of [fulfill_near] all end at [cur_start] or
    before. *)
Lemma fulfill_near_start_ends (off lo hi cur_start : Z) (rv : read_vec_t) :
  rv_chain off lo hi rv -> 0 <= lo -> hi < 2 ^ 32 ->
  Forall (ends_by cur_start) (firstn (fulfill_near_start rv cur_start) rv).
Proof.
  intros Hchain Hlo Hhi. unfold fulfill_near_start.
  pose proof (rv_lower_bound_prefix cur_start rv) as Hlt.
  pose proof (rv_lower_bound_le cur_start rv) as Hle.
  destruct (rv_lower_bound cur_start rv) as [|p]; [constructor|].
  destruct (nth_error rv p) as [[first second]|] eqn:Hnth.
  - destruct (firstn_nth_split _ _ _ Hnth) as [Hs Hsplit].
    rewrite Hs in Hlt. apply Forall_app in Hlt as [_ Hlast].
    inversion Hlast as [|? ? Hfirst _]; subst. simpl in Hfirst.
    rewrite Hsplit in Hchain.
    destruct (rv_chain_app_ends _ _ _ _ _ _ _ Hchain)
      as (Hbefore & Hf & Hend & Hpos & _).
    rewrite u64_small by lia.
    destruct (first + iov_len second <=? cur_start) eqn:E.
    + apply Z.leb_le in E. rewrite Hs. apply Forall_app. split.
      * eapply Forall_impl; [|exact Hbefore].
        unfold ends_by. intros e He. lia.
      * constructor; [|constructor]. unfold ends_by. simpl. exact E.
    + eapply Forall_impl; [|exact Hbefore].
      unfold ends_by. intros e He. lia.
  - apply nth_error_None in Hnth. lia.
Qed.

(** What [fulfill_read] establishes for one source. *)
Lemma fulfill_read_chain (m : machine) (a e st v loc r : Z) (m' : machine) :
  fulfill_read m a e st v loc = (r, m') ->
  request_ok (op m) ->
  rv_chain (op_offset (op m)) (op_offset (op m))
           (op_offset (op m) + op_len (op m)) (op_read_vec (op m)) ->
  op_offset (op m') = op_offset (op m) /\
  op_len (op m') = op_len (op m) /\
  op_addr m' = op_addr m /\
  (r = 0 \/ r = -1) /\
  rv_chain (op_offset (op m)) (op_offset (op m))
           (op_offset (op m) + op_len (op m)) (op_read_vec (op m')) /\
  (forall x, In x (op_read_vec (op m)) -> In x (op_read_vec (op m'))) /\
  (exists extra,
      ring_grows m m' extra /\
      Forall (is_read_of (op_addr m)) extra /\
      (length (op_read_vec (op m'))
       = length (op_read_vec (op m)) + length extra)%nat) /\
  (r = 0 -> st <> ST_IN_FLIGHT -> is_deleted st = false ->
   forall x, a <= x < e ->
             op_offset (op m) <= x < op_offset (op m) + op_len (op m) ->
             rv_covers (op_read_vec (op m')) x).
Proof.
  intros Hrun Hreq Hchain. unfold fulfill_read in Hrun.
  pose proof Hreq as (Ho & Hl & Hw).
  rewrite (u32_small (op_offset (op m) + op_len (op m))) in Hrun by lia.
  destruct ((a <? op_offset (op m) + op_len (op m))
            && (op_offset (op m) <? e)) eqn:Hguard.
  - apply andb_true_iff in Hguard as [Ha He].
    apply Z.ltb_lt in Ha, He.
    set (rv := op_read_vec (op m)) in *.
    set (p := fulfill_near_start rv
                (if a <? op_offset (op m) then op_offset (op m) else a)) in *.
    destruct (fulfill_read_loop_chain _ _ _ _ _ _ m (firstn p rv) _ r m' Hrun)
      as (H1 & H2 & H3 & H4 & H5 & H6 & H7 & H8); auto.
    + now rewrite firstn_skipn.
    + now rewrite firstn_skipn.
    + eapply fulfill_near_start_ends; eauto.
    + destruct (a <? op_offset (op m)) eqn:E;
        [lia|apply Z.ltb_ge in E; lia].
    + destruct (op_offset (op m) + op_len (op m) <? e) eqn:E;
        [lia|apply Z.ltb_ge in E; lia].
    + do 7 (split; [assumption|]).
      intros Hz Hst Hdel x Hx Hin. apply H8; auto.
      destruct (a <? op_offset (op m)) eqn:E1;
        destruct (op_offset (op m) + op_len (op m) <? e) eqn:E2;
        try apply Z.ltb_lt in E1; try apply Z.ltb_ge in E1;
        try apply Z.ltb_lt in E2; try apply Z.ltb_ge in E2; lia.
  - injection Hrun as <- <-.
    do 3 (split; [reflexivity|]). split; [now left|].
    split; [exact Hchain|]. split; [auto|]. split.
    + exists []. split; [apply ring_grows_refl|].
      split; [constructor|simpl; lia].
    + intros _ _ _ x Hx Hin.
      apply andb_false_iff in Hguard as [E|E]; apply Z.ltb_ge in E; lia.
Qed.

(** X3.  [fulfill_read] keeps [read_vec] a chain: whatever the source and
    whatever the outcome, the ranges recorded stay in key order, non-empty,
    pairwise disjoint, inside the requested range, and each points at its
    own bytes of the caller's buffer. *)
Theorem fulfill_read_keeps_ranges_disjoint
    (m : machine) (a e st v loc r : Z) (m' : machine) :
  fulfill_read m a e st v loc = (r, m') ->
  request_ok (op m) ->
  rv_chain (op_offset (op m)) (op_offset (op m))
           (op_offset (op m) + op_len (op m)) (op_read_vec (op m)) ->
  rv_chain (op_offset (op m')) (op_offset (op m'))
           (op_offset (op m') + op_len (op m')) (op_read_vec (op m')).
Proof.
  intros Hrun Hreq Hchain.
  destruct (fulfill_read_chain _ _ _ _ _ _ _ _ Hrun Hreq Hchain)
    as (H1 & H2 & _ & _ & H5 & _).
  now rewrite H1, H2.
Qed.

(** X4.  [fulfill_read] never drops or changes a range already recorded:
    what a newer source has claimed stays claimed when an older source
    is processed. *)
Theorem fulfill_read_keeps_recorded_ranges
    (m : machine) (a e st v loc r : Z) (m' : machine)
    (k : Z) (iov : iovec) :
  fulfill_read m a e st v loc = (r, m') ->
  request_ok (op m) ->
  rv_chain (op_offset (op m)) (op_offset (op m))
           (op_offset (op m) + op_len (op m)) (op_read_vec (op m)) ->
  In (k, iov) (op_read_vec (op m)) ->
  In (k, iov) (op_read_vec (op m')).
Proof.
  intros Hrun Hreq Hchain Hin.
  destruct (fulfill_read_chain _ _ _ _ _ _ _ _ Hrun Hreq Hchain)
    as (_ & _ & _ & _ & _ & H6 & _).
  now apply H6.
Qed.

(** X5.  When [fulfill_read] succeeds for a source that is neither in
    flight nor deleted, every requested byte in the source's range is
    covered by a recorded range afterwards. *)
Theorem fulfill_read_covers_source
    (m : machine) (a e st v loc : Z) (m' : machine) (x : Z) :
  fulfill_read m a e st v loc = (0, m') ->
  request_ok (op m) ->
  rv_chain (op_offset (op m)) (op_offset (op m))
           (op_offset (op m) + op_len (op m)) (op_read_vec (op m)) ->
  st <> ST_IN_FLIGHT -> is_deleted st = false ->
  a <= x < e ->
  op_offset (op m) <= x < op_offset (op m) + op_len (op m) ->
  rv_covers (op_read_vec (op m')) x.
Proof.
  intros Hrun Hreq Hchain Hst Hdel Hx Hin.
  destruct (fulfill_read_chain _ _ _ _ _ _ _ _ Hrun Hreq Hchain)
    as (_ & _ & _ & _ & _ & _ & _ & H8).
  now apply H8.
Qed.

(** X6.  [fulfill_read] queues exactly one kernel read, owned by the
    operation, for each range it adds to [read_vec], and touches nothing
    else of the blockstore. *)
Theorem fulfill_read_queues_one_read_per_range
    (m : machine) (a e st v loc r : Z) (m' : machine) :
  fulfill_read m a e st v loc = (r, m') ->
  request_ok (op m) ->
  rv_chain (op_offset (op m)) (op_offset (op m))
           (op_offset (op m) + op_len (op m)) (op_read_vec (op m)) ->
  exists extra,
    ring_grows m m' extra /\
    Forall (is_read_of (op_addr m)) extra /\
    (length (op_read_vec (op m'))
     = length (op_read_vec (op m)) + length extra)%nat.
Proof.
  intros Hrun Hreq Hchain.
  destruct (fulfill_read_chain _ _ _ _ _ _ _ _ Hrun Hreq Hchain)
    as (_ & _ & _ & _ & _ & _ & H7 & _).
  exact H7.
Qed.

(** ** What a whole read does to the ring *)

Lemma fulfill_read_push_ring (m : machine) (a st v loc s e : Z) :
  exists extra,
    ring_grows m (snd (fulfill_read_push m a st v loc s e)) extra.
Proof.
  destruct (fulfill_read_push m a st v loc s e) as [r m1] eqn:Hpush.
  apply fulfill_read_push_effect in Hpush
    as (_ & _ & _ & _ & [(_ & _ & _ & Hring) | (_ & Hbs & _)]).
  - eexists. exact Hring.
  - exists []. simpl. unfold ring_grows. rewrite Hbs. apply ring_grows_refl.
Qed.

Lemma fulfill_read_loop_ring (nodes : read_vec_t) :
  forall (m : machine) (a st v loc s e : Z),
  exists extra,
    ring_grows m (snd (fulfill_read_loop nodes m a st v loc s e)) extra.
Proof.
  induction nodes as [|[first second] rest IH]; intros m a st v loc s e; simpl.
  - destruct (fulfill_read_push_ring m a st v loc s e) as (x & H).
    destruct (fulfill_read_push m a st v loc s e) as [r m1].
    exists x. destruct (r <? 0); exact H.
  - destruct (first <? e).
    + destruct (fulfill_read_push_ring m a st v loc s (u32 first)) as (x & H).
      destruct (fulfill_read_push m a st v loc s (u32 first)) as [r m1].
      destruct (r <? 0); [now exists x|].
      destruct (IH m1 a st v loc (u32 (first + iov_len second)) e) as (y & H').
      exists (x ++ y). eapply ring_grows_trans; eassumption.
    + destruct (fulfill_read_push_ring m a st v loc s e) as (x & H).
      destruct (fulfill_read_push m a st v loc s e) as [r m1].
      exists x. destruct (r <? 0); exact H.
Qed.

Lemma fulfill_read_ring (m : machine) (a e st v loc : Z) :
  exists extra, ring_grows m (snd (fulfill_read m a e st v loc)) extra.
Proof.
  unfold fulfill_read.
  destruct ((a <? u32 (op_offset (op m) + op_len (op m)))
            && (op_offset (op m) <? e)).
  - apply fulfill_read_loop_ring.
  - exists []. apply ring_grows_refl.
Qed.

Lemma dirty_walk_ring (i : nat) :
  forall (m : machine) (r : Z) (m' : machine),
    dirty_walk i m = Ok (r, m') -> exists extra, ring_grows m m' extra.
Proof.
  induction i as [|j IH]; intros m r m'; rewrite dirty_walk_eq;
    (destruct (nth_error (dirty_db (bs m)) _) as [[k d]|]; [|discriminate]);
    (destruct (oid_eqb (oid k) (op_oid (op m)));
       [|intros [= <- <-]; exists []; apply ring_grows_refl]).
  all: assert (Hsrc : exists extra, ring_grows m
         (snd (if (Z.land (op_flags (op m)) OP_TYPE_MASK =? OP_READ_DIRTY)
                  || IS_STABLE (dirty_state d)
               then fulfill_read m (dirty_offset d)
                      (u32 (dirty_offset d + dirty_size d)) (dirty_state d)
                      (version k) (dirty_location d)
               else (0, m))) extra);
    [ destruct ((Z.land (op_flags (op m)) OP_TYPE_MASK =? OP_READ_DIRTY)
                || IS_STABLE (dirty_state d));
      [apply fulfill_read_ring|exists []; apply ring_grows_refl]
    | ].
  all: destruct (if (Z.land (op_flags (op m)) OP_TYPE_MASK =? OP_READ_DIRTY)
                    || IS_STABLE (dirty_state d)
                 then _ else _) as [r1 m1]; simpl in Hsrc;
    destruct Hsrc as (x & Hx);
    destruct (r1 <? 0); [intros [= <- <-]; now exists x|].
  - discriminate.
  - intros Hw. destruct (IH _ _ _ Hw) as (y & Hy).
    exists (x ++ y). eapply ring_grows_trans; eassumption.
Qed.

Lemma set_sq_same (r : ring_t) : set_sq r (sq r) = r.
Proof. destruct r; reflexivity. Qed.

(** Undoing the requests of an attempt gives back the blockstore the
    attempt started from. *)
Lemma undo_requests_restores (m m1 : machine) (extra : list io_uring_sqe) :
  ring_grows m m1 extra ->
  bs (undo_requests m1 (sqe_tail (ring (bs m)))) = bs m.
Proof.
  unfold ring_grows, undo_requests. intros ->. simpl.
  unfold set_sqe_tail, sqe_tail. simpl.
  replace (sqe_head (ring (bs m)) + Z.of_nat (length (sq (ring (bs m))))
           - sqe_head (ring (bs m)))
    with (Z.of_nat (length (sq (ring (bs m))))) by lia.
  rewrite Nat2Z.id, firstn_app, firstn_all, Nat.sub_diag. simpl.
  rewrite app_nil_r.
  destruct (bs m) as [a b c d e f g h i r]. destruct r. reflexivity.
Qed.

(** X7.  Whenever [dequeue_read] returns 0 - the read has to wait - the
    blockstore is exactly what it was before the call: every slot the
    attempt took from the ring is given back, [read_vec] is empty again and
    no callback has run. *)
Theorem dequeue_read_wait_undoes_requests (m m' : machine) :
  dequeue_read m = Ok (0, m') ->
  bs m' = bs m /\ op_read_vec (op m') = [] /\ callbacks m' = callbacks m.
Proof.
  unfold dequeue_read.
  destruct (dirty_upper_bound _ _) as [|i]; [discriminate|].
  set (found := match nth_error (dirty_db (bs m)) i with
                | Some (k, _) => oid_eqb (oid k) (op_oid (op m))
                | None => false
                end).
  destruct (negb _ && negb found); [discriminate|].
  assert (Hwalk : forall r1 m1,
             (if found then dirty_walk i m else Ok (0, m)) = Ok (r1, m1) ->
             (exists extra, ring_grows m m1 extra) /\ walk_keeps m m1).
  { intros r1 m1. destruct found.
    - intros H. split; [eapply dirty_walk_ring, H|eapply dirty_walk_keeps, H].
    - intros [= <- <-]. split; [exists []; apply ring_grows_refl|].
      apply walk_keeps_refl. }
  destruct (if found then dirty_walk i m else Ok (0, m)) as [[r1 m1]| |];
    [|discriminate|discriminate].
  destruct (Hwalk r1 m1 eq_refl) as ((x & Hx) & Hk1).
  destruct (r1 <? 0).
  { intros [= <-]. split; [eapply undo_requests_restores, Hx|].
    split; [reflexivity|]. simpl. apply Hk1. }
  assert (Hclean :
    (exists extra, ring_grows m1
       (snd (match object_db_find (op_oid (op m)) (object_db (bs m)) with
             | Some clean =>
                 fulfill_read m1 0 (block_size (bs m1)) ST_CURRENT 0
                              (clean_location clean)
             | None => (0, m1)
             end)) extra) /\
    walk_keeps m1
       (snd (match object_db_find (op_oid (op m)) (object_db (bs m)) with
             | Some clean =>
                 fulfill_read m1 0 (block_size (bs m1)) ST_CURRENT 0
                              (clean_location clean)
             | None => (0, m1)
             end))).
  { destruct (object_db_find _ _).
    - split; [apply fulfill_read_ring|apply fulfill_read_keeps].
    - split; [exists []; apply ring_grows_refl|apply walk_keeps_refl]. }
  destruct (match object_db_find (op_oid (op m)) (object_db (bs m)) with
            | Some clean => _ | None => _ end) as [r2 m2].
  simpl in Hclean. destruct Hclean as ((y & Hy) & Hk2).
  destruct (r2 <? 0).
  { intros [= <-]. split.
    - eapply undo_requests_restores, ring_grows_trans; eassumption.
    - split; [reflexivity|]. simpl.
      apply (walk_keeps_trans _ _ _ Hk1 Hk2). }
  destruct (length (op_read_vec (op m2)) =? 0)%nat; [discriminate|].
  unfold submit. simpl.
  destruct (submit_errno (ring (bs m2)) =? 0); simpl.
  - destruct (Z.of_nat _ <? 0); discriminate.
  - destruct (- submit_errno (ring (bs m2)) <? 0); discriminate.
Qed.

Lemma dirty_walk_chain (i : nat) :
  forall (m : machine) (r : Z) (m' : machine),
    dirty_walk i m = Ok (r, m') ->
    request_ok (op m) ->
    rv_chain (op_offset (op m)) (op_offset (op m))
             (op_offset (op m) + op_len (op m)) (op_read_vec (op m)) ->
    op_offset (op m') = op_offset (op m) /\
    op_len (op m') = op_len (op m) /\
    op_addr m' = op_addr m /\
    rv_chain (op_offset (op m)) (op_offset (op m))
             (op_offset (op m) + op_len (op m)) (op_read_vec (op m')) /\
    exists extra,
      ring_grows m m' extra /\
      Forall (is_read_of (op_addr m)) extra /\
      (length (op_read_vec (op m'))
       = length (op_read_vec (op m)) + length extra)%nat.
Proof.
  assert (Hnone : forall m : machine,
    request_ok (op m) ->
    rv_chain (op_offset (op m)) (op_offset (op m))
             (op_offset (op m) + op_len (op m)) (op_read_vec (op m)) ->
    op_offset (op m) = op_offset (op m) /\
    op_len (op m) = op_len (op m) /\
    op_addr m = op_addr m /\
    rv_chain (op_offset (op m)) (op_offset (op m))
             (op_offset (op m) + op_len (op m)) (op_read_vec (op m)) /\
    exists extra,
      ring_grows m m extra /\
      Forall (is_read_of (op_addr m)) extra /\
      (length (op_read_vec (op m))
       = length (op_read_vec (op m)) + length extra)%nat).
  { intros m _ Hc. do 3 (split; [reflexivity|]). split; [exact Hc|].
    exists []. split; [apply ring_grows_refl|].
    split; [constructor|simpl; lia]. }
  induction i as [|j IH]; intros m r m' Hrun Hreq Hchain;
    rewrite dirty_walk_eq in Hrun;
    (destruct (nth_error (dirty_db (bs m)) _) as [[k d]|]; [|discriminate]);
    (destruct (oid_eqb (oid k) (op_oid (op m)));
       [|injection Hrun as <- <-; now apply Hnone]).
  all: destruct (if (Z.land (op_flags (op m)) OP_TYPE_MASK =? OP_READ_DIRTY)
                    || IS_STABLE (dirty_state d)
                 then fulfill_read m (dirty_offset d)
                        (u32 (dirty_offset d + dirty_size d)) (dirty_state d)
                        (version k) (dirty_location d)
                 else (0, m)) as [r1 m1] eqn:Hsrc.
  all: assert (H1 :
    op_offset (op m1) = op_offset (op m) /\
    op_len (op m1) = op_len (op m) /\
    op_addr m1 = op_addr m /\
    rv_chain (op_offset (op m)) (op_offset (op m))
             (op_offset (op m) + op_len (op m)) (op_read_vec (op m1)) /\
    exists extra,
      ring_grows m m1 extra /\
      Forall (is_read_of (op_addr m)) extra /\
      (length (op_read_vec (op m1))
       = length (op_read_vec (op m)) + length extra)%nat);
    [ destruct ((Z.land (op_flags (op m)) OP_TYPE_MASK =? OP_READ_DIRTY)
                || IS_STABLE (dirty_state d));
      [ destruct (fulfill_read_chain _ _ _ _ _ _ _ _ Hsrc Hreq Hchain)
          as (A & B & C & _ & D & _ & E & _); auto
      | injection Hsrc as <- <-; now apply Hnone ]
    | ].
  all: destruct (r1 <? 0); [injection Hrun as <- <-; exact H1|].
  - discriminate.
  - destruct H1 as (A & B & C & D & (x & Hx & Fx & Lx)).
    assert (Hreq1 : request_ok (op m1))
      by (unfold request_ok; rewrite A, B; exact Hreq).
    rewrite <- A, <- B in D.
    destruct (IH _ _ _ Hrun Hreq1 D) as (A2 & B2 & C2 & D2 & (y & Hy & Fy & Ly)).
    rewrite A, B in *.
    split; [congruence|]. split; [congruence|]. split; [congruence|].
    split; [exact D2|].
    exists (x ++ y). split; [eapply ring_grows_trans; eassumption|].
    split; [apply Forall_app; split; [exact Fx|now rewrite <- C]|].
    rewrite Ly, Lx, length_app. lia.
Qed.

Lemma set_insert_in (x : Z) (s : list Z) : In x (set_insert x s).
Proof.
  unfold set_insert. destruct (existsb (Z.eqb x) s) eqn:E.
  - apply existsb_exists in E as (y & Hy & Heq).
    apply Z.eqb_eq in Heq. now subst y.
  - apply in_or_app. right. now left.
Qed.

(** X8.  When [dequeue_read] dispatches a read with kernel I/O, the
    ranges it has recorded are pairwise disjoint and inside the requested
    range; the ring has been handed to the kernel with exactly one read
    owned by the operation per range on top of what it held before,
    [pending_ops] is their number, [retval] is 0 and the operation is in
    [in_process_ops]. *)
Theorem dequeue_read_submits_one_read_per_range (m m' : machine) :
  dequeue_read m = Ok (1, m') ->
  request_ok (op m) ->
  0 <= submit_errno (ring (bs m)) ->
  op_read_vec (op m) = [] ->
  op_read_vec (op m') <> [] ->
  rv_chain (op_offset (op m)) (op_offset (op m))
           (op_offset (op m) + op_len (op m)) (op_read_vec (op m')) /\
  op_retval (op m') = 0 /\
  In (op_addr m) (in_process_ops (bs m')) /\
  sq (ring (bs m')) = [] /\
  exists extra,
    submitted (ring (bs m'))
      = submitted (ring (bs m)) ++ sq (ring (bs m)) ++ extra /\
    Forall (is_read_of (op_addr m)) extra /\
    length extra = length (op_read_vec (op m')) /\
    op_pending_ops (op m') = int32 (Z.of_nat (length extra)).
Proof.
  intros Hrun Hreq Herrno Hrv Hio. revert Hrun. unfold dequeue_read.
  destruct (dirty_upper_bound _ _) as [|i]; [discriminate|].
  set (found := match nth_error (dirty_db (bs m)) i with
                | Some (k, _) => oid_eqb (oid k) (op_oid (op m))
                | None => false
                end).
  destruct (negb _ && negb found).
  { intros [= <-]. simpl in Hio. rewrite Hrv in Hio. contradiction. }
  assert (Hchain0 : rv_chain (op_offset (op m)) (op_offset (op m))
                      (op_offset (op m) + op_len (op m)) (op_read_vec (op m)))
    by (rewrite Hrv; exact I).
  assert (Hwalk : forall r1 m1,
    (if found then dirty_walk i m else Ok (0, m)) = Ok (r1, m1) ->
    op_offset (op m1) = op_offset (op m) /\
    op_len (op m1) = op_len (op m) /\
    op_addr m1 = op_addr m /\
    rv_chain (op_offset (op m)) (op_offset (op m))
             (op_offset (op m) + op_len (op m)) (op_read_vec (op m1)) /\
    exists extra,
      ring_grows m m1 extra /\
      Forall (is_read_of (op_addr m)) extra /\
      (length (op_read_vec (op m1))
       = length (op_read_vec (op m)) + length extra)%nat).
  { intros r1 m1. destruct found.
    - intros H. exact (dirty_walk_chain _ _ _ _ H Hreq Hchain0).
    - intros [= <- <-]. do 3 (split; [reflexivity|]).
      split; [exact Hchain0|]. exists [].
      split; [apply ring_grows_refl|]. split; [constructor|simpl; lia]. }
  destruct (if found then dirty_walk i m else Ok (0, m)) as [[r1 m1]| |];
    [|discriminate|discriminate].
  destruct (Hwalk r1 m1 eq_refl) as (A & B & C & D & (x & Hx & Fx & Lx)).
  destruct (r1 <? 0); [discriminate|].
  destruct (match object_db_find (op_oid (op m)) (object_db (bs m)) with
            | Some clean =>
                fulfill_read m1 0 (block_size (bs m1)) ST_CURRENT 0
                             (clean_location clean)
            | None => (0, m1)
            end) as [r2 m2] eqn:Hclean.
  assert (H2 :
    op_addr m2 = op_addr m /\
    rv_chain (op_offset (op m)) (op_offset (op m))
             (op_offset (op m) + op_len (op m)) (op_read_vec (op m2)) /\
    exists extra,
      ring_grows m m2 extra /\
      Forall (is_read_of (op_addr m)) extra /\
      length (op_read_vec (op m2)) = length extra).
  { rewrite Hrv in Lx. simpl in Lx.
    destruct (object_db_find _ _).
    - assert (Hreq1 : request_ok (op m1))
        by (unfold request_ok; rewrite A, B; exact Hreq).
      rewrite <- A, <- B in D.
      destruct (fulfill_read_chain _ _ _ _ _ _ _ _ Hclean Hreq1 D)
        as (A2 & B2 & C2 & _ & D2 & _ & (y & Hy & Fy & Ly) & _).
      rewrite A, B in D2. split; [congruence|]. split; [exact D2|].
      exists (x ++ y). split; [eapply ring_grows_trans; eassumption|].
      split; [apply Forall_app; split; [exact Fx|now rewrite <- C]|].
      rewrite Ly, Lx, length_app. reflexivity.
    - injection Hclean as <- <-. split; [exact C|]. split; [exact D|].
      exists x. auto. }
  destruct H2 as (C2 & D2 & (z & Hz & Fz & Lz)).
  destruct (r2 <? 0); [discriminate|].
  destruct (length (op_read_vec (op m2)) =? 0)%nat eqn:Hempty.
  { intros [= <-]. simpl in Hio. apply Nat.eqb_eq in Hempty.
    destruct (op_read_vec (op m2)); [contradiction|discriminate]. }
  unfold submit. simpl. unfold ring_grows in Hz. rewrite Hz. simpl.
  destruct (submit_errno (ring (bs m)) =? 0) eqn:Hno; simpl.
  - destruct (Z.of_nat _ <? 0); [discriminate|].
    intros [= <-]. simpl.
    split; [exact D2|]. split; [reflexivity|].
    split; [rewrite C2; apply set_insert_in|]. split; [reflexivity|].
    exists z. split; [reflexivity|].
    split; [exact Fz|]. split; [now rewrite Lz|]. now rewrite Lz.
  - apply Z.eqb_neq in Hno.
    destruct (- submit_errno (ring (bs m)) <? 0) eqn:Hneg; [discriminate|].
    apply Z.ltb_ge in Hneg. lia.
Qed.

(** ** Where a read goes *)

(** What [fulfill_read] does for a source when nothing is recorded yet. *)
Lemma fulfill_read_into_empty
    (m : machine) (a e st v loc : Z) :
  op_read_vec (op m) = [] ->
  request_ok (op m) -> 0 < op_len (op m) ->
  a < op_offset (op m) + op_len (op m) -> op_offset (op m) < e ->
  0 <= a < e ->
  st <> ST_IN_FLIGHT -> is_deleted st = false ->
  Z.of_nat (length (sq (ring (bs m)))) < sq_entries (ring (bs m)) ->
  let s := Z.max a (op_offset (op m)) in
  let t := Z.min e (op_offset (op m) + op_len (op m)) in
  let iov := {| iov_base := OpBuf (s - op_offset (op m));
                iov_len := t - s |} in
  exists m',
    fulfill_read m a e st v loc = (0, m') /\
    op_read_vec (op m') = [(s, iov)] /\
    ring_grows m m'
      [SQE_READV
         (if IS_JOURNAL st then journal_fd (journal (bs m))
          else data_fd (bs m))
         iov
         (u64 ((if IS_JOURNAL st then journal_offset (journal (bs m))
                else data_offset (bs m)) + loc + s - a))
         (op_addr m)] /\
    op_buf (op m') = op_buf (op m).
Proof.
  intros Hrv (Ho & Hl & Hw) Hpos Hlo Hhi Hae Hst Hdel Hroom s t iov.
  assert (Hs : (if a <? op_offset (op m) then op_offset (op m) else a) = s).
  { subst s. destruct (a <? op_offset (op m)) eqn:E;
      [apply Z.ltb_lt in E|apply Z.ltb_ge in E]; lia. }
  assert (Ht : (if op_offset (op m) + op_len (op m) <? e
                then op_offset (op m) + op_len (op m) else e) = t).
  { subst t. destruct (op_offset (op m) + op_len (op m) <? e) eqn:E;
      [apply Z.ltb_lt in E|apply Z.ltb_ge in E]; lia. }
  assert (Hst' : s < t) by (subst s t; lia).
  unfold fulfill_read.
  rewrite (u32_small (op_offset (op m) + op_len (op m))) by lia.
  apply Z.ltb_lt in Hlo, Hhi. rewrite Hlo, Hhi. simpl andb. cbv iota.
  rewrite Hs, Ht, Hrv. simpl.
  unfold fulfill_read_push.
  apply Z.ltb_lt in Hst' as Hst''. rewrite Hst''.
  apply Z.eqb_neq in Hst. rewrite Hst, Hdel.
  unfold get_sqe. apply Z.ltb_lt in Hroom. rewrite Hroom.
  rewrite Hrv. simpl.
  rewrite (u32_small (t - s)) by (subst s t; lia).
  eexists. split; [reflexivity|]. simpl.
  split; [reflexivity|]. split; [|reflexivity].
  unfold ring_grows, prep. simpl. now rewrite list_set_last.
Qed.

(** X9.  The first source of a read: with nothing recorded yet, a free
    slot in the ring and a source that is neither in flight nor deleted,
    [fulfill_read] queues one read for the bytes the source shares with
    the request - from the journal for a journal state, from the data
    region otherwise - at the source's location plus the distance of the
    first shared byte from the source's start, into the caller's buffer at
    the distance of that byte from the request's start. *)
Theorem fulfill_read_first_source
    (m : machine) (a e st v loc : Z) :
  op_read_vec (op m) = [] ->
  request_ok (op m) -> 0 < op_len (op m) ->
  a < op_offset (op m) + op_len (op m) -> op_offset (op m) < e ->
  0 <= a < e ->
  st <> ST_IN_FLIGHT -> is_deleted st = false ->
  Z.of_nat (length (sq (ring (bs m)))) < sq_entries (ring (bs m)) ->
  let s := Z.max a (op_offset (op m)) in
  let t := Z.min e (op_offset (op m) + op_len (op m)) in
  let iov := {| iov_base := OpBuf (s - op_offset (op m));
                iov_len := t - s |} in
  exists m',
    fulfill_read m a e st v loc = (0, m') /\
    op_read_vec (op m') = [(s, iov)] /\
    ring_grows m m'
      [SQE_READV
         (if IS_JOURNAL st then journal_fd (journal (bs m))
          else data_fd (bs m))
         iov
         (u64 ((if IS_JOURNAL st then journal_offset (journal (bs m))
                else data_offset (bs m)) + loc + s - a))
         (op_addr m)] /\
    op_buf (op m') = op_buf (op m).
Proof.
  intros Hrv Hreq Hpos Hlo Hhi Hae Hst Hdel Hroom.
  now apply fulfill_read_into_empty.
Qed.

Lemma dirty_upper_bound_le (k : obj_ver_id) (db : dirty_db_t) :
  (dirty_upper_bound k db <= length db)%nat.
Proof.
  induction db as [|[k0 d0] rest IH]; simpl; [lia|].
  destruct (ov_ltb k k0); simpl; lia.
Qed.

Lemma no_dirty_version_lookup (m : machine) :
  no_dirty_version m -> dirty_lookup_defined m ->
  exists i k d,
    dirty_upper_bound {| oid := op_oid (op m); version := UINT64_MAX |}
                      (dirty_db (bs m)) = S i /\
    nth_error (dirty_db (bs m)) i = Some (k, d) /\
    oid_eqb (oid k) (op_oid (op m)) = false.
Proof.
  intros Hnone Hdef. unfold dirty_lookup_defined in Hdef.
  pose proof (dirty_upper_bound_le
                {| oid := op_oid (op m); version := UINT64_MAX |}
                (dirty_db (bs m))) as Hle.
  destruct (dirty_upper_bound _ (dirty_db (bs m))) as [|i] eqn:Hub.
  - contradiction.
  - destruct (nth_error (dirty_db (bs m)) i) as [[k d]|] eqn:Hnth.
    + exists i, k, d. split; [reflexivity|]. split; [exact Hnth|].
      apply nth_error_In in Hnth.
      unfold no_dirty_version in Hnone.
      rewrite Forall_forall in Hnone. exact (Hnone _ Hnth).
    + apply nth_error_None in Hnth. lia.
Qed.

(** X10.  A read of an object that has a clean entry and no dirty version,
    when the lookup in the dirty index is defined - the index holds a key
    that is not above [(oid, UINT64_MAX)] - and the ring has room:
    [dequeue_read] hands the kernel one read of the requested bytes from
    the object's data block - at [data_offset] plus the block's location
    plus the requested offset - into the start of the caller's buffer, sets
    [retval] to 0 and [pending_ops] to 1 and leaves the buffer to the
    kernel.  (When the dirty index holds no such key - for one, when it
    is empty - the call has no defined result.) *)
Theorem clean_object_read_goes_to_data_block
    (m : machine) (clean : clean_entry) :
  object_db_find (op_oid (op m)) (object_db (bs m)) = Some clean ->
  no_dirty_version m -> dirty_lookup_defined m ->
  op_read_vec (op m) = [] ->
  0 <= op_offset (op m) -> 0 < op_len (op m) ->
  op_offset (op m) + op_len (op m) <= block_size (bs m) ->
  block_size (bs m) < 2 ^ 32 ->
  Z.of_nat (length (sq (ring (bs m)))) < sq_entries (ring (bs m)) ->
  submit_errno (ring (bs m)) = 0 ->
  let iov := {| iov_base := OpBuf 0; iov_len := op_len (op m) |} in
  exists m',
    dequeue_read m = Ok (1, m') /\
    submitted (ring (bs m'))
      = submitted (ring (bs m)) ++ sq (ring (bs m))
        ++ [SQE_READV (data_fd (bs m)) iov
              (u64 (data_offset (bs m) + clean_location clean
                    + op_offset (op m)))
              (op_addr m)] /\
    op_read_vec (op m') = [(op_offset (op m), iov)] /\
    op_retval (op m') = 0 /\
    op_pending_ops (op m') = 1 /\
    op_buf (op m') = op_buf (op m) /\
    callbacks m' = callbacks m.
Proof.
  intros Hclean Hnone Hdef Hrv Ho Hl Hblock Hbs Hroom Herr iov.
  destruct (no_dirty_version_lookup m Hnone Hdef)
    as (i & k & d & Hub & Hnth & Hoid).
  destruct (fulfill_read_into_empty m 0 (block_size (bs m)) ST_CURRENT 0
              (clean_location clean)) as (m1 & Hrun & Hrv1 & Hring & Hbuf);
    auto; try lia; try discriminate.
  { unfold request_ok. lia. }
  replace (Z.max 0 (op_offset (op m))) with (op_offset (op m)) in * by lia.
  replace (Z.min (block_size (bs m)) (op_offset (op m) + op_len (op m)))
    with (op_offset (op m) + op_len (op m)) in * by lia.
  replace (op_offset (op m) - op_offset (op m)) with 0 in * by lia.
  replace (op_offset (op m) + op_len (op m) - op_offset (op m))
    with (op_len (op m)) in * by lia.
  simpl in Hring. rewrite Z.sub_0_r in Hring.
  assert (Hkeep : walk_keeps m m1).
  { pose proof (fulfill_read_keeps m 0 (block_size (bs m)) ST_CURRENT 0
                  (clean_location clean)) as H. now rewrite Hrun in H. }
  unfold dequeue_read. rewrite Hclean, Hub, Hnth, Hoid. simpl.
  rewrite Hrun. simpl. rewrite Hrv1. simpl.
  unfold ring_grows in Hring. rewrite Hring. unfold submit. simpl.
  rewrite Herr. simpl.
  destruct (Z.of_nat _ <? 0) eqn:Hneg; [apply Z.ltb_lt in Hneg; lia|].
  eexists. split; [reflexivity|]. simpl.
  split; [reflexivity|]. split; [exact Hrv1|].
  split; [reflexivity|]. split; [reflexivity|].
  split; [exact Hbuf|]. apply Hkeep.
Qed.

(** X11.  The same read - a clean entry, no dirty version, the lookup in
    the dirty index defined - when the ring has no free slot: the operation
    is not dequeued, [wait_for] is [WAIT_SQE], and blockstore, buffer and
    [read_vec] are what they were. *)
Theorem clean_object_read_waits_for_sqe
    (m : machine) (clean : clean_entry) :
  object_db_find (op_oid (op m)) (object_db (bs m)) = Some clean ->
  no_dirty_version m -> dirty_lookup_defined m ->
  op_read_vec (op m) = [] ->
  0 <= op_offset (op m) -> 0 < op_len (op m) ->
  op_offset (op m) + op_len (op m) < 2 ^ 32 ->
  op_offset (op m) < block_size (bs m) ->
  sq_entries (ring (bs m)) <= Z.of_nat (length (sq (ring (bs m)))) ->
  exists m',
    dequeue_read m = Ok (0, m') /\
    op_wait_for (op m') = WAIT_SQE /\
    bs m' = bs m /\
    op_read_vec (op m') = [] /\
    op_buf (op m') = op_buf (op m) /\
    callbacks m' = callbacks m.
Proof.
  intros Hclean Hnone Hdef Hrv Ho Hl Hw Hblock Hfull.
  destruct (no_dirty_version_lookup m Hnone Hdef)
    as (i & k & d & Hub & Hnth & Hoid).
  assert (Hrun :
    fulfill_read m 0 (block_size (bs m)) ST_CURRENT 0 (clean_location clean)
    = (-1, with_op m (set_wait_for (op m) WAIT_SQE))).
  { unfold fulfill_read.
    rewrite (u32_small (op_offset (op m) + op_len (op m))) by lia.
    replace (0 <? op_offset (op m) + op_len (op m)) with true
      by (symmetry; apply Z.ltb_lt; lia).
    apply Z.ltb_lt in Hblock as Hb. rewrite Hb, Hrv. simpl.
    unfold fulfill_read_push.
    match goal with |- context [?x <? ?y] =>
      replace (x <? y) with true; [|symmetry; apply Z.ltb_lt]
    end.
    - simpl. unfold get_sqe.
      replace (Z.of_nat (length (sq (ring (bs m)))) <? sq_entries (ring (bs m)))
        with false by (symmetry; apply Z.ltb_ge; lia).
      reflexivity.
    - destruct (0 <? op_offset (op m)) eqn:E1;
        destruct (op_offset (op m) + op_len (op m) <? block_size (bs m)) eqn:E2;
        try apply Z.ltb_lt in E1; try apply Z.ltb_ge in E1;
        try apply Z.ltb_lt in E2; try apply Z.ltb_ge in E2; lia. }
  unfold dequeue_read. rewrite Hclean, Hub, Hnth, Hoid. simpl.
  rewrite Hrun. simpl.
  eexists. split; [reflexivity|]. simpl.
  rewrite set_sqe_tail_same, set_ring_same. auto.
Qed.

(** ** Dispatching a big write *)

Lemma list_set_nth_same {A : Type} (l : list A) (n : nat) (x : A) :
  (n < length l)%nat -> nth_error (list_set l n x) n = Some x.
Proof.
  revert n. induction l as [|y l IH]; intros [|n] H; simpl in *;
    try lia; [reflexivity|]. apply IH. lia.
Qed.

Lemma list_set_nth_other {A : Type} (l : list A) (n j : nat) (x : A) :
  j <> n -> nth_error (list_set l n x) j = nth_error l j.
Proof.
  revert n j. induction l as [|y l IH]; intros [|n] [|j] H; simpl;
    try reflexivity; try contradiction. apply IH. lia.
Qed.

Lemma find_free_from_found (a : allocator) :
  forall i loc,
    find_free_from i a = loc -> loc <> UINT64_MAX -> 0 <= i ->
    i <= loc /\
    nth_error a (Z.to_nat (loc - i)) = Some false /\
    forall j, (j < Z.to_nat (loc - i))%nat -> nth_error a j = Some true.
Proof.
  induction a as [|b rest IH]; intros i loc Hfind Hloc Hi; simpl in Hfind.
  - congruence.
  - destruct b.
    + destruct (IH _ _ Hfind Hloc) as (H1 & H2 & H3); [lia|].
      split; [lia|].
      replace (Z.to_nat (loc - i)) with (S (Z.to_nat (loc - (i + 1))))
        by lia.
      split; [exact H2|]. intros [|j] Hj; [reflexivity|].
      simpl. apply H3. lia.
    + subst loc. rewrite Z.sub_diag. simpl.
      split; [lia|]. split; [reflexivity|]. intros j Hj. lia.
Qed.

Lemma dirty_find_from_nth (k : obj_ver_id) (db : dirty_db_t) :
  forall n i,
    dirty_find_from n k db = Some i ->
    exists d, (n <= i)%nat /\ nth_error db (i - n) = Some (k, d).
Proof.
  induction db as [|[k0 d0] rest IH]; intros n i H; simpl in H;
    [discriminate|].
  destruct (negb (ov_ltb k k0) && negb (ov_ltb k0 k)) eqn:E.
  - injection H as <-. exists d0. split; [lia|].
    rewrite Nat.sub_diag. simpl.
    apply andb_true_iff in E as [E1 E2].
    apply negb_true_iff in E1, E2.
    destruct (ov_ltb_total k k0) as [H|[H|H]];
      congruence.
  - destruct (IH _ _ H) as (d & Hle & Hnth). exists d. split; [lia|].
    replace (i - n)%nat with (S (i - S n)) by lia. exact Hnth.
Qed.

(** X16.  A big write with a free block, a free ring slot and its dirty
    entry in place is dispatched: it takes the first free block - which was
    free, every block before it being taken - and marks only that block;
    the dirty entry gets the block's byte position and the state
    [ST_D_SUBMITTED]; one write of the whole buffer to that position of
    the data region is queued; the journal is not touched and no callback
    runs. *)
Theorem big_write_takes_first_free_block
    (m : machine) (loc : Z) (i : nat) :
  op_len (op m) = block_size (bs m) ->
  allocator_find_free (data_alloc (bs m)) = loc ->
  loc <> UINT64_MAX ->
  Z.of_nat (length (sq (ring (bs m)))) < sq_entries (ring (bs m)) ->
  dirty_find {| oid := op_oid (op m); version := op_version (op m) |}
             (dirty_db (bs m)) = Some i ->
  let pos := u64 (Z.shiftl loc (block_order (bs m))) in
  exists m' d,
    dequeue_write m = Ok (1, m') /\
    nth_error (data_alloc (bs m)) (Z.to_nat loc) = Some false /\
    (forall j, (j < Z.to_nat loc)%nat ->
               nth_error (data_alloc (bs m)) j = Some true) /\
    nth_error (data_alloc (bs m')) (Z.to_nat loc) = Some true /\
    (forall j, j <> Z.to_nat loc ->
               nth_error (data_alloc (bs m')) j
               = nth_error (data_alloc (bs m)) j) /\
    nth_error (dirty_db (bs m)) i
      = Some ({| oid := op_oid (op m); version := op_version (op m) |}, d) /\
    nth_error (dirty_db (bs m')) i
      = Some ({| oid := op_oid (op m); version := op_version (op m) |},
              set_location_state d pos ST_D_SUBMITTED) /\
    sq (ring (bs m'))
      = sq (ring (bs m))
        ++ [SQE_WRITEV (data_fd (bs m))
              {| iov_base := OpBuf 0; iov_len := op_len (op m) |}
              (u64 (data_offset (bs m) + pos)) (op_addr m)] /\
    op_pending_ops (op m') = 1 /\
    journal (bs m') = journal (bs m) /\
    callbacks m' = callbacks m.
Proof.
  intros Hlen Hfind Hloc Hroom Hdirty pos.
  destruct (find_free_from_found _ _ _ Hfind Hloc) as (H0 & Hfree & Htaken);
    [lia|].
  rewrite Z.sub_0_r in Hfree, Htaken.
  destruct (dirty_find_from_nth _ _ _ _ Hdirty) as (d & _ & Hnth).
  rewrite Nat.sub_0_r in Hnth.
  assert (Hi : (i < length (dirty_db (bs m)))%nat)
    by (apply nth_error_Some; congruence).
  assert (Hl : (Z.to_nat loc < length (data_alloc (bs m)))%nat)
    by (apply nth_error_Some; congruence).
  exists (with_op
            (with_bs m
               (set_ring
                  (set_data_alloc
                     (set_dirty_db (bs m)
                        (list_set (dirty_db (bs m)) i
                           ({| oid := op_oid (op m);
                               version := op_version (op m) |},
                            set_location_state d pos ST_D_SUBMITTED)))
                     (allocator_set (data_alloc (bs m)) loc true))
                  (set_sq (ring (bs m))
                     (sq (ring (bs m))
                      ++ [SQE_WRITEV (data_fd (bs m))
                            {| iov_base := OpBuf 0; iov_len := op_len (op m) |}
                            (u64 (data_offset (bs m) + pos)) (op_addr m)]))))
            (set_used_journal_sector (set_pending_ops (op m) 1) 0)), d.
  split.
  - unfold dequeue_write. rewrite Hlen, Z.eqb_refl, Hdirty.
    unfold dequeue_write_big. rewrite Hfind.
    apply Z.eqb_neq in Hloc. rewrite Hloc.
    unfold BS_GET_SQE, get_sqe. apply Z.ltb_lt in Hroom. rewrite Hroom.
    simpl. unfold dirty_assign. simpl. rewrite Hnth. simpl.
    unfold prep. simpl. rewrite list_set_last. rewrite Hlen. reflexivity.
  - simpl. split; [exact Hfree|]. split; [exact Htaken|].
    split; [unfold allocator_set; now apply list_set_nth_same|].
    split; [intros j Hj; unfold allocator_set; now apply list_set_nth_other|].
    split; [exact Hnth|]. split; [now apply list_set_nth_same|].
    auto.
Qed.

(** ** Small writes: waiting and dispatching *)

(** X17.  A small write that needs a new sector while the next sector
    buffer is still in use is parked: [dequeue_write] returns 0 with
    [wait_for = WAIT_JOURNAL_BUFFER] and changes nothing else. *)
Theorem small_write_waits_for_sector_buffer (m : machine) :
  op_len (op m) <> block_size (bs m) ->
  sector_buffer_busy (journal (bs m)) = Ok true ->
  dequeue_write m
  = Ok (0, with_op m (set_wait_for (op m) WAIT_JOURNAL_BUFFER)).
Proof.
  intros Hsmall Hbusy. unfold dequeue_write.
  apply Z.eqb_neq in Hsmall. rewrite Hsmall.
  unfold dequeue_write_small. now rewrite Hbusy.
Qed.

Lemma list_set_two {A : Type} (l : list A) (b1 b2 x y : A) :
  list_set (list_set ((l ++ [b1]) ++ [b2]) (length l) x)
           (length (l ++ [b1])) y
  = l ++ [x; y].
Proof.
  induction l as [|a l IH]; simpl; [reflexivity|]. now rewrite IH.
Qed.

Lemma map_list_set {A B : Type} (f : A -> B) (l : list A) (n : nat) (x : A) :
  map f (list_set l n x) = list_set (map f l) n (f x).
Proof.
  revert n. induction l as [|y l IH]; intros [|n]; simpl;
    try reflexivity. now rewrite IH.
Qed.

Lemma list_set_same {A : Type} (l : list A) (n : nat) (x : A) :
  nth_error l n = Some x -> list_set l n x = l.
Proof.
  revert n. induction l as [|y l IH]; intros [|n] H; simpl in *;
    try discriminate.
  - now injection H as ->.
  - now rewrite IH.
Qed.

(** Moving to the next sector changes no usage count. *)
Lemma next_sector_usage (j j1 : journal_t) :
  next_sector j = Ok j1 ->
  map usage_count (sector_info j1) = map usage_count (sector_info j).
Proof.
  unfold next_sector, bind.
  destruct (sector_is_full j); [|now intros [= <-]].
  destruct (umod _ _) as [i| |]; [|discriminate|discriminate].
  unfold sector_info_update, bind, deref. simpl.
  destruct (nth_error (sector_info j) (Z.to_nat i)) as [s|] eqn:Hs;
    [|discriminate].
  intros [= <-]. simpl. rewrite map_list_set. simpl.
  apply list_set_same. now rewrite nth_error_map, Hs.
Qed.

Lemma deref_ok {A : Type} (x : option A) (a : A) :
  deref x = Ok a -> x = Some a.
Proof. destruct x; simpl; [now intros [= ->]|discriminate]. Qed.

Lemma dirty_assign_ok (db : dirty_db_t) (it : option nat) (loc st : Z)
    (db' : dirty_db_t) :
  dirty_assign db it loc st = Ok db' ->
  exists i k d, it = Some i /\ nth_error db i = Some (k, d) /\
    db' = list_set db i (k, set_location_state d loc st).
Proof.
  unfold dirty_assign, bind, deref.
  destruct it as [i|]; [|discriminate].
  destruct (nth_error db i) as [[k d]|] eqn:Hd; [|discriminate].
  intros [= <-]. now exists i, k, d.
Qed.

Lemma sector_info_update_ok (j j' : journal_t) (i : Z)
    (f : journal_sector_info_t -> journal_sector_info_t) :
  sector_info_update j i f = Ok j' ->
  exists s, nth_error (sector_info j) (Z.to_nat i) = Some s /\
    j' = set_sector_info j (list_set (sector_info j) (Z.to_nat i) (f s)).
Proof.
  unfold sector_info_update, bind, deref.
  destruct (nth_error (sector_info j) (Z.to_nat i)) as [s|] eqn:Hs;
    [|discriminate].
  intros [= <-]. now exists s.
Qed.

(** Everything a dispatched small write has done. *)
Lemma dequeue_write_small_dispatched (m : machine) (it : option nat)
    (m' : machine) :
  dequeue_write_small m it = Ok (1, m') ->
  exists j1 s i k d,
    next_sector (journal (bs m)) = Ok j1 /\
    nth_error (sector_info j1) (Z.to_nat (cur_sector j1)) = Some s /\
    it = Some i /\
    nth_error (dirty_db (bs m)) i = Some (k, d) /\
    let placed := if u64 (journal_len j1 - next_free j1) <? op_len (op m)
                  then 512 else next_free j1 in
    dirty_db (bs m')
      = list_set (dirty_db (bs m)) i
          (k, set_location_state d placed ST_J_SUBMITTED) /\
    sq (ring (bs m'))
      = sq (ring (bs m))
        ++ [SQE_WRITEV (journal_fd j1)
              {| iov_base := SectorBuf (512 * cur_sector j1); iov_len := 512 |}
              (u64 (journal_offset j1 + sector_offset s)) (op_addr m);
            SQE_WRITEV (journal_fd j1)
              {| iov_base := OpBuf 0; iov_len := op_len (op m) |}
              (u64 (journal_offset j1 + placed)) (op_addr m)] /\
    sector_info (journal (bs m'))
      = list_set (sector_info j1) (Z.to_nat (cur_sector j1)) (add_usage s) /\
    cur_sector (journal (bs m')) = cur_sector j1 /\
    op m' = set_used_journal_sector (set_pending_ops (op m) 2)
              (u64 (1 + cur_sector j1)) /\
    callbacks m' = callbacks m /\
    data_alloc (bs m') = data_alloc (bs m) /\
    object_db (bs m') = object_db (bs m).
Proof.
  unfold dequeue_write_small.
  destruct (sector_buffer_busy (journal (bs m))) as [busy| |];
    [|discriminate|discriminate].
  unfold bind at 1.
  destruct busy; [discriminate|].
  destruct (reservation_end _ _ >=? _); [discriminate|].
  unfold BS_GET_SQE, get_sqe.
  destruct (Z.of_nat (length (sq (ring (bs m)))) <? sq_entries (ring (bs m)));
    [|discriminate].
  cbn [bs with_bs ring set_ring op sq set_sq sq_entries].
  destruct (Z.of_nat (length (sq (ring (bs m)) ++ [SQE_BLANK]))
            <? sq_entries (ring (bs m))); [|discriminate].
  destruct (next_sector (journal (bs m))) as [j1| |] eqn:Hns;
    [|discriminate|discriminate].
  unfold bind at 1.
  cbn [bs with_bs ring set_ring op journal set_sector_buf sector_info
       cur_sector sq set_sq].
  destruct (deref (nth_error (sector_info j1) (Z.to_nat (cur_sector j1))))
    as [s| |] eqn:Hs; [|discriminate|discriminate].
  apply deref_ok in Hs.
  unfold bind at 1.
  destruct (dirty_assign _ _ _ _) as [db| |] eqn:Hda;
    [|discriminate|discriminate].
  apply dirty_assign_ok in Hda. destruct Hda as (i & k & d & Hit & Hd & Hdb).
  unfold bind at 1.
  destruct (sector_info_update _ _ _) as [j4| |] eqn:Hup;
    [|discriminate|discriminate].
  apply sector_info_update_ok in Hup. destruct Hup as (s' & Hs' & Hj4).
  unfold bind at 1.
  intros [= <-].
  exists j1, s, i, k, d.
  split; [reflexivity|]. split; [exact Hs|]. split; [exact Hit|].
  split; [exact Hd|].
  cbn [bs with_bs op with_op journal set_journal ring set_ring dirty_db
       set_dirty_db callbacks data_alloc object_db].
  unfold prep. cbn [sq set_sq]. rewrite list_set_two.
  subst j4 db. revert Hs'.
  cbn [journal_len next_free set_sector_buf].
  destruct (u64 (journal_len j1 - next_free j1) <? op_len (op m));
    cbn [journal_len next_free set_sector_buf set_next_free];
    destruct (_ >=? _);
    cbn [journal_len next_free sector_buf cur_sector in_sector_pos crc32_last
         set_sector_buf set_next_free set_sector_info set_crc32_last
         sector_info journal_fd journal_offset];
    rewrite Hs; intros [= <-];
    repeat (split; [reflexivity|]); reflexivity.
Qed.

(** X18.  A dispatched small write queues two writes to the journal: the
    current sector buffer to the position recorded for that sector, and
    the caller's buffer to the position it records as the location of the
    dirty entry, which it moves to [ST_J_SUBMITTED]; [pending_ops] is 2 and
    [used_journal_sector] one more than the sector's index. *)
Theorem small_write_records_where_it_writes
    (m : machine) (it : option nat) (m' : machine) :
  dequeue_write_small m it = Ok (1, m') ->
  exists i k d s,
    it = Some i /\
    nth_error (dirty_db (bs m)) i = Some (k, d) /\
    nth_error (sector_info (journal (bs m')))
              (Z.to_nat (cur_sector (journal (bs m')))) = Some s /\
    exists placed,
      nth_error (dirty_db (bs m')) i
        = Some (k, set_location_state d placed ST_J_SUBMITTED) /\
      sq (ring (bs m'))
        = sq (ring (bs m))
          ++ [SQE_WRITEV (journal_fd (journal (bs m)))
                {| iov_base := SectorBuf
                                 (512 * cur_sector (journal (bs m')));
                   iov_len := 512 |}
                (u64 (journal_offset (journal (bs m)) + sector_offset s))
                (op_addr m);
              SQE_WRITEV (journal_fd (journal (bs m)))
                {| iov_base := OpBuf 0; iov_len := op_len (op m) |}
                (u64 (journal_offset (journal (bs m)) + placed))
                (op_addr m)] /\
      op_pending_ops (op m') = 2 /\
      op_used_journal_sector (op m')
        = u64 (1 + cur_sector (journal (bs m'))).
Proof.
  intros Hrun.
  destruct (dequeue_write_small_dispatched _ _ _ Hrun)
    as (j1 & s & i & k & d & Hns & Hs & Hit & Hd & Hdb & Hsq & Hinfo & Hcur
        & Hop & _).
  assert (Hfd : journal_fd j1 = journal_fd (journal (bs m)) /\
                journal_offset j1 = journal_offset (journal (bs m))).
  { revert Hns. unfold next_sector, bind.
    destruct (sector_is_full _); [|intros [= <-]; auto].
    destruct (umod _ _) as [c| |]; [|discriminate|discriminate].
    destruct (sector_info_update _ _ _) as [j2| |] eqn:Hup;
      [|discriminate|discriminate].
    apply sector_info_update_fields in Hup.
    intros [= <-]. rewrite Hup. simpl. auto. }
  destruct Hfd as [Hfd Hoff].
  assert (Hc : (Z.to_nat (cur_sector j1) < length (sector_info j1))%nat)
    by (apply nth_error_Some; congruence).
  assert (Hi : (i < length (dirty_db (bs m)))%nat)
    by (apply nth_error_Some; congruence).
  exists i, k, d, (add_usage s).
  split; [exact Hit|]. split; [exact Hd|].
  split; [rewrite Hinfo, Hcur; now apply list_set_nth_same|].
  eexists. split; [rewrite Hdb; now apply list_set_nth_same|].
  split; [rewrite Hsq, Hfd, Hoff, Hcur; reflexivity|].
  rewrite Hop, Hcur. simpl. auto.
Qed.

(** X19.  A dispatched small write raises the usage count of the sector
    buffer it has used - the current one when it returns - by one and
    leaves the usage count of every other buffer as it was. *)
Theorem small_write_pins_its_sector
    (m : machine) (it : option nat) (m' : machine) :
  dequeue_write_small m it = Ok (1, m') ->
  exists count,
    nth_error (map usage_count (sector_info (journal (bs m))))
              (Z.to_nat (cur_sector (journal (bs m')))) = Some count /\
    map usage_count (sector_info (journal (bs m')))
    = list_set (map usage_count (sector_info (journal (bs m))))
               (Z.to_nat (cur_sector (journal (bs m')))) (count + 1).
Proof.
  intros Hrun.
  destruct (dequeue_write_small_dispatched _ _ _ Hrun)
    as (j1 & s & i & k & d & Hns & Hs & _ & _ & _ & _ & Hinfo & Hcur & _).
  apply next_sector_usage in Hns.
  exists (usage_count s). rewrite Hcur, Hinfo, map_list_set, <- Hns.
  split; [|reflexivity].
  now rewrite nth_error_map, Hs.
Qed.

(** X20.  A write that [dequeue_write] leaves on the queue (it returns 0)
    has changed neither index, nor the allocator, nor the journal, and no
    callback has run; of the operation only [wait_for] and [wait_detail]
    may differ. *)
Theorem parked_write_changes_no_index (m m' : machine) :
  dequeue_write m = Ok (0, m') ->
  journal (bs m') = journal (bs m) /\
  dirty_db (bs m') = dirty_db (bs m) /\
  data_alloc (bs m') = data_alloc (bs m) /\
  object_db (bs m') = object_db (bs m) /\
  callbacks m' = callbacks m /\
  set_wait_detail (set_wait_for (op m') 0) 0
  = set_wait_detail (set_wait_for (op m) 0) 0.
Proof.
  unfold dequeue_write.
  destruct (op_len (op m) =? block_size (bs m)).
  - unfold dequeue_write_big.
    destruct (allocator_find_free _ =? UINT64_MAX); [discriminate|].
    unfold BS_GET_SQE.
    destruct (get_sqe (ring (bs m))) as [[sqe r1]|].
    + destruct (dirty_assign _ _ _ _) as [db| |]; discriminate.
    + intros [= <-]. simpl. auto 7.
  - unfold dequeue_write_small.
    destruct (sector_buffer_busy (journal (bs m))) as [busy| |];
      [|discriminate|discriminate].
    unfold bind at 1.
    destruct busy; [intros [= <-]; simpl; auto 7|].
    destruct (reservation_end _ _ >=? _); [intros [= <-]; simpl; auto 7|].
    unfold BS_GET_SQE.
    destruct (get_sqe (ring (bs m))) as [[sqe1 r1]|];
      [|intros [= <-]; simpl; auto 7].
    cbn [bs with_bs ring set_ring op].
    destruct (get_sqe r1) as [[sqe2 r2]|]; [|intros [= <-]; simpl; auto 7].
    destruct (next_sector (journal (bs m))) as [j1| |];
      [|discriminate|discriminate].
    unfold bind at 1.
    destruct (deref _) as [s| |]; [|discriminate|discriminate].
    unfold bind at 1.
    destruct (dirty_assign _ _ _ _) as [db| |]; [|discriminate|discriminate].
    unfold bind at 1.
    destruct (sector_info_update _ _ _) as [j4| |];
      [|discriminate|discriminate].
    unfold bind at 1. discriminate.
Qed.

(** X21.  The two kinds of write keep to their own region: a big write
    that returns leaves the journal as it was, a small write that returns
    leaves the allocator as it was, and neither touches the clean index. *)
Theorem write_kinds_keep_to_their_region (m : machine) (r : Z) (m' : machine) :
  dequeue_write m = Ok (r, m') ->
  (op_len (op m) = block_size (bs m) -> journal (bs m') = journal (bs m)) /\
  (op_len (op m) <> block_size (bs m) ->
   data_alloc (bs m') = data_alloc (bs m)) /\
  object_db (bs m') = object_db (bs m).
Proof.
  intros Hrun.
  assert (Hr : r = 0 \/ r = 1 \/ (r <> 0 /\ r <> 1)) by lia.
  unfold dequeue_write in Hrun.
  destruct (op_len (op m) =? block_size (bs m)) eqn:Hlen.
  - apply Z.eqb_eq in Hlen.
    split; [intros _; eapply dequeue_write_big_journal, Hrun|].
    split; [congruence|].
    revert Hrun. unfold dequeue_write_big.
    destruct (allocator_find_free _ =? UINT64_MAX); [now intros [= <- <-]|].
    unfold BS_GET_SQE.
    destruct (get_sqe (ring (bs m))) as [[sqe r1]|]; [|now intros [= <- <-]].
    destruct (dirty_assign _ _ _ _) as [db| |]; [|discriminate|discriminate].
    unfold bind. now intros [= <- <-].
  - apply Z.eqb_neq in Hlen. split; [congruence|].
    destruct (Z.eq_dec r 1) as [-> | Hne].
    + destruct (dequeue_write_small_dispatched _ _ _ Hrun)
        as (j1 & s & i & k & d & _ & _ & _ & _ & _ & _ & _ & _ & _ & _ & Ha & Ho).
      split; [intros _; exact Ha|exact Ho].
    + revert Hrun. unfold dequeue_write_small.
      destruct (sector_buffer_busy (journal (bs m))) as [busy| |];
        [|discriminate|discriminate].
      unfold bind at 1.
      destruct busy; [now intros [= <- <-]|].
      destruct (reservation_end _ _ >=? _); [now intros [= <- <-]|].
      unfold BS_GET_SQE.
      destruct (get_sqe (ring (bs m))) as [[sqe1 r1]|];
        [|now intros [= <- <-]].
      cbn [bs with_bs ring set_ring op].
      destruct (get_sqe r1) as [[sqe2 r2]|]; [|now intros [= <- <-]].
      destruct (next_sector (journal (bs m))) as [j1| |];
        [|discriminate|discriminate].
      unfold bind at 1.
      destruct (deref _) as [s| |]; [|discriminate|discriminate].
      unfold bind at 1.
      destruct (dirty_assign _ _ _ _) as [db| |]; [|discriminate|discriminate].
      unfold bind at 1.
      destruct (sector_info_update _ _ _) as [j4| |];
        [|discriminate|discriminate].
      unfold bind at 1. intros [= <- <-]. contradiction.
Qed.

(** ** The end of the journal *)

Lemma next_sector_device (j j1 : journal_t) :
  next_sector j = Ok j1 ->
  journal_fd j1 = journal_fd j /\ journal_offset j1 = journal_offset j.
Proof.
  unfold next_sector, bind.
  destruct (sector_is_full j); [|intros [= <-]; auto].
  destruct (umod _ _) as [c| |]; [|discriminate|discriminate].
  destruct (sector_info_update _ _ _) as [j2| |] eqn:Hup;
    [|discriminate|discriminate].
  apply sector_info_update_fields in Hup.
  intros [= <-]. rewrite Hup. simpl. auto.
Qed.

(** C4.  A dispatched small write on a journal whose [next_free] is inside
    [[512, len)] and, like [len], a multiple of 512.  Let [pos] be where
    the payload would go without wrapping: [next_free], or
    [next_free + 512] when the entry needs a new sector.  Whenever that
    sector advance reaches [journal.len], or the payload placed at [pos]
    would cross it, the reservation starts again at 512: a payload that is
    not empty is written, and recorded in the dirty entry, at position 512,
    and [next_free] ends where a reservation from 512 ends.  In every case
    [next_free] is inside [[512, len)] again when [dequeue_write] has
    returned 1. *)
Theorem small_write_wraps_at_journal_end (m m' : machine) :
  dequeue_write m = Ok (1, m') ->
  op_len (op m) <> block_size (bs m) ->
  512 <= next_free (journal (bs m)) < journal_len (journal (bs m)) ->
  journal_len (journal (bs m)) <= 2 ^ 63 ->
  (512 | next_free (journal (bs m))) ->
  (512 | journal_len (journal (bs m))) ->
  0 <= op_len (op m) < 2 ^ 32 ->
  let j := journal (bs m) in
  let pos := if sector_is_full j then next_free j + 512 else next_free j in
  exists i k d placed sector_write,
    dirty_find {| oid := op_oid (op m); version := op_version (op m) |}
               (dirty_db (bs m)) = Some i /\
    nth_error (dirty_db (bs m)) i = Some (k, d) /\
    nth_error (dirty_db (bs m')) i
      = Some (k, set_location_state d placed ST_J_SUBMITTED) /\
    sq (ring (bs m'))
      = sq (ring (bs m))
        ++ [sector_write;
            SQE_WRITEV (journal_fd j)
              {| iov_base := OpBuf 0; iov_len := op_len (op m) |}
              (u64 (journal_offset j + placed)) (op_addr m)] /\
    (journal_len j <= pos \/ journal_len j < pos + op_len (op m) ->
     (0 < op_len (op m) -> placed = 512) /\
     next_free (journal (bs m'))
       = (if 512 + op_len (op m) >=? journal_len j
          then 512 else 512 + op_len (op m))) /\
    512 <= next_free (journal (bs m')) < journal_len (journal (bs m')).
Proof.
  intros Hrun Hsmall Hnf Hlen [a Ha] [b Hb] Hop j pos.
  unfold dequeue_write in Hrun. apply Z.eqb_neq in Hsmall.
  rewrite Hsmall in Hrun.
  destruct (dequeue_write_small_dispatched _ _ _ Hrun)
    as (j1 & s & i & k & d & Hns & Hs & Hit & Hd & Hdb & Hsq & _).
  apply dequeue_write_small_journal in Hrun
    as [[[=] _]|[_ (j1' & Hns' & _ & _ & _ & _ & Hl & Hfree)]].
  rewrite Hns in Hns'. injection Hns' as <-.
  destruct (next_sector_device _ _ Hns) as [Hfd Hoff].
  apply next_sector_fields in Hns as (_ & Hl1 & Hnf1).
  cbv zeta in Hfree.
  assert (Hi : (i < length (dirty_db (bs m)))%nat)
    by (apply nth_error_Some; congruence).
  exists i, k, d. eexists. eexists.
  split; [exact Hit|]. split; [exact Hd|].
  split; [rewrite Hdb; now apply list_set_nth_same|].
  split; [rewrite Hsq, Hfd, Hoff; reflexivity|].
  rewrite Hl, Hfree, Hl1. clear Hfree Hl Hdb Hsq.
  fold j in Hnf, Hlen, Ha, Hb, Hnf1, Hl1 |- *.
  rewrite Hnf1. clear Hnf1 Hl1 Hfd Hoff Hs.
  change (2 ^ 63) with 9223372036854775808 in Hlen.
  change (2 ^ 32) with 4294967296 in Hop.
  subst pos. unfold u64. change (2 ^ 64) with 18446744073709551616.
  destruct (sector_is_full j).
  - destruct ((next_free j + 512) mod 18446744073709551616
              >=? journal_len j) eqn:E;
      rewrite Z.geb_leb in E;
      [apply Z.leb_le in E|apply Z.leb_gt in E];
      rewrite Z.mod_small in E by lia.
    + assert (Hend : next_free j + 512 = journal_len j) by lia.
      rewrite (Z.mod_small (next_free j + 512)) by lia.
      rewrite Hend, Z.sub_diag. rewrite (Z.mod_small 0) by lia.
      destruct (0 <? op_len (op m)) eqn:Ep;
        [apply Z.ltb_lt in Ep|apply Z.ltb_ge in Ep].
      * rewrite (Z.mod_small (512 + op_len (op m))) by lia.
        split; [intros _; split; [reflexivity|reflexivity]|].
        destruct (512 + op_len (op m) >=? journal_len j) eqn:F; [lia|].
        rewrite Z.geb_leb in F. apply Z.leb_gt in F. lia.
      * assert (Hz : op_len (op m) = 0) by lia. rewrite Hz, !Z.add_0_r.
        rewrite (Z.mod_small (journal_len j)) by lia.
        replace (journal_len j >=? journal_len j) with true
          by (symmetry; rewrite Z.geb_leb; apply Z.leb_le; lia).
        replace (512 >=? journal_len j) with false
          by (symmetry; rewrite Z.geb_leb; apply Z.leb_gt; lia).
        split; [intros _; split; [lia|reflexivity]|lia].
    + assert (Hp : (if (journal_len j - 512) mod 18446744073709551616
                         <? op_len (op m) then 512 else 512) = 512)
        by (destruct (_ <? _); reflexivity).
      rewrite Hp. rewrite (Z.mod_small (512 + op_len (op m))) by lia.
      split; [intros _; split; [reflexivity|reflexivity]|].
      destruct (512 + op_len (op m) >=? journal_len j) eqn:F; [lia|].
      rewrite Z.geb_leb in F. apply Z.leb_gt in F. lia.
  - rewrite (Z.mod_small (journal_len j - next_free j)) by lia.
    destruct (journal_len j - next_free j <? op_len (op m)) eqn:Ep;
      [apply Z.ltb_lt in Ep|apply Z.ltb_ge in Ep].
    + rewrite (Z.mod_small (512 + op_len (op m))) by lia.
      split; [intros _; split; [reflexivity|reflexivity]|].
      destruct (512 + op_len (op m) >=? journal_len j) eqn:F; [lia|].
      rewrite Z.geb_leb in F. apply Z.leb_gt in F. lia.
    + rewrite (Z.mod_small (next_free j + op_len (op m))) by lia.
      split; [intros [H|H]; lia|].
      destruct (next_free j + op_len (op m) >=? journal_len j) eqn:F; [lia|].
      rewrite Z.geb_leb in F. apply Z.leb_gt in F. lia.
Qed.

End Write.

(** * The properties at concrete stores *)

(** ** Reads *)

(** C1.  Object 3 has a stable journaled version 1 and, above it, the
    synced deletion version 2 of the whole block; a plain [READ] may
    use both.  The highest version holding byte 0 is the deletion, and
    [dequeue_read] does zero the buffer for it - but it records nothing in
    [read_vec], so version 1 is then read over the zeroes: the one kernel
    read fills buffer bytes 0..1023 from journal position 8192, the
    location of version 1. *)
Theorem deleted_version_loses_to_older_write :
  spec_highest_source (dirty_db (bs deleted_read)) OP_READ oid3 0
    = Some (key oid3 2, new_dirty ST_DEL_SYNCED 0 0 4096) /\
  exists m',
    dequeue_read deleted_read = Ok (1, m') /\
    op_buf (op m') = repeat 0 1024 /\
    op_read_vec (op m') = [(0, {| iov_base := OpBuf 0; iov_len := 1024 |})] /\
    submitted (ring (bs m'))
      = [SQE_READV (journal_fd idle_journal)
           {| iov_base := OpBuf 0; iov_len := 1024 |}
           (journal_offset idle_journal + 8192) 1000].
Proof.
  split; [reflexivity|].
  eexists. split; [vm_compute; reflexivity|].
  repeat split; vm_compute; reflexivity.
Qed.



(** C7.  On a fresh store - no clean entry, no dirty entry at all - a read
    has no defined result: [dirty_it--] runs on [begin()].  Likewise when
    the object's only version is a deletion and it is the first node of
    the dirty index: the buffer is zeroed, no request is queued, and the
    loop then steps before [begin()]. *)
Theorem read_of_unallocated_object_undefined :
  object_db (bs fresh_read) = [] /\ dirty_db (bs fresh_read) = [] /\
  dequeue_read fresh_read = Undefined /\
  dequeue_read first_object_read = Undefined.
Proof. repeat split; vm_compute; reflexivity. Qed.

(** C8, as first stated, fails: the read of object 3 submits a kernel read
    from the journal, and no sector's usage count has gone up. *)
Lemma journal_read_pins_no_sector :
  exists m',
    dequeue_read journal_read = Ok (1, m') /\
    submitted (ring (bs m'))
      = [SQE_READV (journal_fd pinned_journal)
           {| iov_base := OpBuf 0; iov_len := 1024 |}
           (journal_offset pinned_journal + 8192) 1000] /\
    ~ (exists i s s',
          nth_error (sector_info (journal (bs journal_read))) i = Some s /\
          nth_error (sector_info (journal (bs m'))) i = Some s' /\
          usage_count s' = usage_count s + 1).
Proof.
  eexists. split; [vm_compute; reflexivity|].
  split; [vm_compute; reflexivity|].
  intros (i & s & s' & Hs & Hs' & Hinc).
  cbn in Hs, Hs'. rewrite Hs in Hs'. inversion Hs'; subst s'. lia.
Qed.

Lemma dequeue_read_keeps_journal_witness :
  exists m',
    dequeue_read journal_read = Ok (1, m') /\
    journal (bs m') = journal (bs journal_read).
Proof.
  eexists. split; [vm_compute; reflexivity|].
  apply (dequeue_read_keeps_journal journal_read 1).
  vm_compute. reflexivity.
Defined.

Lemma dequeue_read_lookup_undefined_witness :
  dequeue_read absent_object_read = Undefined.
Proof.
  apply (dequeue_read_lookup_undefined absent_object_read).
  repeat constructor.
Defined.

(** ** Writes

    The examples take 15 and 7 for the two "submitted" states, 18995 and 2
    for the journal magic and the entry type, and [sum_crc32] for the
    checksum. *)

Lemma small_write_entries_form_crc_chain_witness :
  exists es m',
    dispatch_writes 15 7 18995 2 sum_crc32 three_writes small_write_roomy
      = Ok ([1; 1; 1], es, m') /\
    length es = 2%nat /\
    crc_chain sum_crc32 (crc32_last roomy_journal) es /\
    crc32_last (journal (bs m'))
      = chain_end (crc32_last roomy_journal) es.
Proof.
  eexists. eexists. split; [vm_compute; reflexivity|].
  split; [reflexivity|].
  epose proof (small_write_entries_form_crc_chain 15 7 18995 2 sum_crc32
                 three_writes small_write_roomy [1; 1; 1] _ _) as Hrun.
  destruct Hrun as (Hchain & Hlast & _); [vm_compute; reflexivity|].
  split; [exact Hchain|exact Hlast].
Defined.

(** Line 77 has the test of lines 41-45 the other way round.  In a 4 KiB
    journal with [next_free = 3584] the advance to the next sector reaches
    the end and leaves [next_free] at 4096, the journal's length, for the
    payload placement to wrap.  In a 1 MiB journal with [next_free = 1024]
    the advance stays far from the end, and [next_free] jumps to 512 all
    the same: the payload of the write goes to journal position 512, not
    to the 1536 the space check looked at. *)
Lemma sector_advance_wraps_the_wrong_way :
  (u64 (next_free tail_journal + 512) >= journal_len tail_journal /\
   (exists m', dequeue_write 15 7 18995 2 sum_crc32 small_write_tail
               = Ok (1, m')) /\
   exists j, next_sector tail_journal = Ok j /\
             next_free j = journal_len tail_journal) /\
  (u64 (next_free roomy_journal + 512) < journal_len roomy_journal /\
   exists j, next_sector roomy_journal = Ok j /\ next_free j = 512) /\
  exists m',
    dequeue_write 15 7 18995 2 sum_crc32 small_write_roomy = Ok (1, m') /\
    nth_error (dirty_db (bs m')) 1
      = Some (key oid3 1, new_dirty 7 512 0 512) /\
    nth_error (sq (ring (bs m'))) 1
      = Some (SQE_WRITEV (journal_fd roomy_journal)
                {| iov_base := OpBuf 0; iov_len := 512 |}
                (journal_offset roomy_journal + 512) 1000).
Proof.
  split; [|split].
  - split; [vm_compute; discriminate|].
    split; [eexists; vm_compute; reflexivity|].
    eexists. split; vm_compute; reflexivity.
  - split; [vm_compute; reflexivity|].
    eexists. split; vm_compute; reflexivity.
  - eexists. split; [vm_compute; reflexivity|].
    split; vm_compute; reflexivity.
Qed.

Lemma big_write_without_free_block_fails_witness :
  exists m',
    dequeue_write 15 7 18995 2 sum_crc32 big_write_no_space = Ok (1, m') /\
    op_retval (op m') = - ENOSPC /\
    callbacks m' = callbacks big_write_no_space ++ [op m'] /\
    ring (bs m') = ring (bs big_write_no_space).
Proof.
  apply (big_write_without_free_block_fails 15 7 18995 2 sum_crc32
           big_write_no_space).
  - reflexivity.
  - repeat constructor.
Defined.

Lemma big_write_no_space_changes_only_retval_witness :
  exists m',
    dequeue_write 15 7 18995 2 sum_crc32 big_write_no_space = Ok (1, m') /\
    op m' = set_retval (op big_write_no_space) (- ENOSPC) /\
    bs m' = bs big_write_no_space /\
    data_alloc (bs m') = data_alloc (bs big_write_no_space) /\
    dirty_db (bs m') = dirty_db (bs big_write_no_space) /\
    journal (bs m') = journal (bs big_write_no_space).
Proof.
  apply (big_write_no_space_changes_only_retval 15 7 18995 2 sum_crc32
           big_write_no_space).
  - reflexivity.
  - repeat constructor.
Defined.

Lemma small_write_wraps_at_journal_end_witness :
  exists m' placed,
    dequeue_write 15 7 18995 2 sum_crc32 small_write_tail = Ok (1, m') /\
    journal_len tail_journal <= next_free tail_journal + 512 /\
    (exists k d,
        nth_error (dirty_db (bs m')) 1
        = Some (k, set_location_state d placed 7)) /\
    placed = 512 /\
    next_free (journal (bs m'))
      = (if 512 + op_len (op small_write_tail)
            >=? journal_len (journal (bs small_write_tail))
         then 512 else 512 + op_len (op small_write_tail)) /\
    512 <= next_free (journal (bs m')) < journal_len (journal (bs m')).
Proof.
  eexists.
  destruct (small_write_wraps_at_journal_end 15 7 18995 2 sum_crc32
              small_write_tail
              (snd (match dequeue_write 15 7 18995 2 sum_crc32
                            small_write_tail with
                    | Ok p => p
                    | _ => (0, small_write_tail)
                    end)))
    as (i & k & d & placed & first & Hfind & _ & Hd & _ & Hwrap & Hrange).
  - vm_compute. reflexivity.
  - vm_compute. discriminate.
  - vm_compute. split; [discriminate|reflexivity].
  - vm_compute. discriminate.
  - exists 7. reflexivity.
  - exists 8. reflexivity.
  - vm_compute. split; [discriminate|reflexivity].
  - destruct Hwrap as [Hplaced Hnext]; [left; vm_compute; discriminate|].
    injection Hfind as <-.
    exists placed. split; [vm_compute; reflexivity|].
    split; [vm_compute; discriminate|].
    split; [exists k, d; exact Hd|].
    split; [apply Hplaced; reflexivity|].
    split; [exact Hnext|exact Hrange].
Defined.

(** C6.  Line 58 compares the end position of the reservation with
    [used_start] as two numbers and misses that the journal is a ring.
    With 1024 bytes free in front of [used_start = 1047552] a small write
    of 2560 bytes does not fit; its payload wraps to 512, where live bytes
    are, and the reservation ends at 3072, which is below [used_start]:
    the operation is dispatched, not parked, and its payload is written
    over live bytes.  Where the test does park an operation - 512 bytes
    free, a new sector and 512 bytes of payload asked for - [wait_detail]
    is 5120, the position the reservation would end at, not the number of
    bytes the operation needs, which the comment at [WAIT_JOURNAL] in
    [blockstore.h] promises.  And a journal nothing has been written to,
    all of it free, parks every small write. *)
Theorem journal_space_check_misses_the_ring :
  (journal_free_bytes nearly_full_journal = 1024 /\
   op_len (op small_write_nearly_full) = 2560 /\
   journal_live nearly_full_journal 512 = true /\
   reservation_end nearly_full_journal 2560 = 3072 /\
   exists m',
     dequeue_write 15 7 18995 2 sum_crc32 small_write_nearly_full
       = Ok (1, m') /\
     op_wait_for (op m') = op_wait_for (op small_write_nearly_full) /\
     nth_error (dirty_db (bs m')) 1
       = Some (key oid3 1, new_dirty 7 512 0 2560) /\
     nth_error (sq (ring (bs m'))) 1
       = Some (SQE_WRITEV (journal_fd nearly_full_journal)
                 {| iov_base := OpBuf 0; iov_len := 2560 |}
                 (journal_offset nearly_full_journal + 512) 1000)) /\
  (journal_free_bytes (crowded_journal 0) = 512 /\
   exists m',
     dequeue_write 15 7 18995 2 sum_crc32 (small_write_crowded 0)
       = Ok (0, m') /\
     op_wait_for (op m') = WAIT_JOURNAL /\
     op_wait_detail (op m') = reservation_end (crowded_journal 0) 512 /\
     op_wait_detail (op m') = 5120 /\
     512 + op_len (op (small_write_crowded 0)) < op_wait_detail (op m')) /\
  (journal_free_bytes idle_journal = journal_len idle_journal - 512 /\
   exists m',
     dequeue_write 15 7 18995 2 sum_crc32 small_write_fresh = Ok (0, m') /\
     op_wait_for (op m') = WAIT_JOURNAL /\
     sq (ring (bs m')) = []).
Proof.
  split; [|split].
  - do 4 (split; [vm_compute; reflexivity|]).
    eexists. split; [vm_compute; reflexivity|].
    repeat split; vm_compute; reflexivity.
  - split; [vm_compute; reflexivity|].
    eexists. split; [vm_compute; reflexivity|].
    repeat split; vm_compute; reflexivity.
  - split; [vm_compute; reflexivity|].
    eexists. split; [vm_compute; reflexivity|].
    split; vm_compute; reflexivity.
Qed.

(** ** Further examples *)

Ltac by_evaluation :=
  vm_compute; repeat split; try reflexivity; try discriminate.

Lemma obj_ver_id_strict_total_order_witness :
  ov_ltb (key oid1 1) (key oid3 2) = true.
Proof.
  apply (proj1 (proj2 obj_ver_id_strict_total_order)
           (key oid1 1) (key oid3 1) (key oid3 2)); reflexivity.
Defined.

Lemma fulfill_read_keeps_ranges_disjoint_witness :
  exists r m',
    fulfill_read partly_recorded_read 0 1024 ST_J_STABLE 1 8192 = (r, m') /\
    rv_chain (op_offset (op m')) (op_offset (op m'))
             (op_offset (op m') + op_len (op m')) (op_read_vec (op m')).
Proof.
  eexists. eexists. split; [vm_compute; reflexivity|].
  apply (fulfill_read_keeps_ranges_disjoint
           partly_recorded_read 0 1024 ST_J_STABLE 1 8192 0).
  - vm_compute. reflexivity.
  - by_evaluation.
  - by_evaluation.
Defined.

Lemma fulfill_read_keeps_recorded_ranges_witness :
  exists r m',
    fulfill_read partly_recorded_read 0 1024 ST_J_STABLE 1 8192 = (r, m') /\
    In (256, {| iov_base := OpBuf 256; iov_len := 256 |})
       (op_read_vec (op m')).
Proof.
  eexists. eexists. split; [vm_compute; reflexivity|].
  apply (fulfill_read_keeps_recorded_ranges
           partly_recorded_read 0 1024 ST_J_STABLE 1 8192 0).
  - vm_compute. reflexivity.
  - by_evaluation.
  - by_evaluation.
  - vm_compute. left. reflexivity.
Defined.

Lemma fulfill_read_covers_source_witness :
  exists m',
    fulfill_read partly_recorded_read 0 1024 ST_J_STABLE 1 8192 = (0, m') /\
    rv_covers (op_read_vec (op m')) 600.
Proof.
  eexists. split; [vm_compute; reflexivity|].
  apply (fulfill_read_covers_source
           partly_recorded_read 0 1024 ST_J_STABLE 1 8192).
  - vm_compute. reflexivity.
  - by_evaluation.
  - by_evaluation.
  - vm_compute. discriminate.
  - reflexivity.
  - lia.
  - by_evaluation.
Defined.

Lemma fulfill_read_queues_one_read_per_range_witness :
  exists r m' extra,
    fulfill_read partly_recorded_read 0 1024 ST_J_STABLE 1 8192 = (r, m') /\
    ring_grows partly_recorded_read m' extra /\
    Forall (is_read_of (op_addr partly_recorded_read)) extra /\
    (length (op_read_vec (op m'))
     = length (op_read_vec (op partly_recorded_read)) + length extra)%nat.
Proof.
  eexists. eexists.
  destruct (fulfill_read_queues_one_read_per_range
              partly_recorded_read 0 1024 ST_J_STABLE 1 8192 0
              (snd (fulfill_read partly_recorded_read 0 1024 ST_J_STABLE
                      1 8192)))
    as (extra & Hgrows & Hreads & Hlen).
  - vm_compute. reflexivity.
  - by_evaluation.
  - by_evaluation.
  - exists extra. split; [vm_compute; reflexivity|].
    split; [exact Hgrows|]. split; [exact Hreads|exact Hlen].
Defined.

Lemma dequeue_read_wait_undoes_requests_witness :
  exists m',
    dequeue_read dirty_read_half_in_flight = Ok (0, m') /\
    bs m' = bs dirty_read_half_in_flight /\
    op_read_vec (op m') = [] /\
    callbacks m' = callbacks dirty_read_half_in_flight.
Proof.
  eexists. split; [vm_compute; reflexivity|].
  apply (dequeue_read_wait_undoes_requests dirty_read_half_in_flight).
  vm_compute. reflexivity.
Defined.

Lemma dequeue_read_submits_one_read_per_range_witness :
  exists m',
    dequeue_read clean_under_dirty_read = Ok (1, m') /\
    rv_chain (op_offset (op clean_under_dirty_read))
             (op_offset (op clean_under_dirty_read))
             (op_offset (op clean_under_dirty_read)
              + op_len (op clean_under_dirty_read))
             (op_read_vec (op m')) /\
    op_retval (op m') = 0 /\
    In (op_addr clean_under_dirty_read) (in_process_ops (bs m')) /\
    sq (ring (bs m')) = [] /\
    exists extra,
      submitted (ring (bs m'))
        = submitted (ring (bs clean_under_dirty_read))
          ++ sq (ring (bs clean_under_dirty_read)) ++ extra /\
      Forall (is_read_of (op_addr clean_under_dirty_read)) extra /\
      length extra = length (op_read_vec (op m')) /\
      op_pending_ops (op m') = int32 (Z.of_nat (length extra)).
Proof.
  eexists. split; [vm_compute; reflexivity|].
  apply (dequeue_read_submits_one_read_per_range clean_under_dirty_read).
  - vm_compute. reflexivity.
  - by_evaluation.
  - by_evaluation.
  - reflexivity.
  - vm_compute. discriminate.
Defined.

Lemma fulfill_read_first_source_witness :
  exists m',
    fulfill_read journal_read 256 2048 ST_J_STABLE 1 8192 = (0, m') /\
    op_read_vec (op m')
      = [(256, {| iov_base := OpBuf 256; iov_len := 768 |})] /\
    ring_grows journal_read m'
      [SQE_READV (journal_fd pinned_journal)
         {| iov_base := OpBuf 256; iov_len := 768 |}
         (journal_offset pinned_journal + 8192) 1000] /\
    op_buf (op m') = op_buf (op journal_read).
Proof.
  apply (fulfill_read_first_source journal_read 256 2048 ST_J_STABLE 1 8192).
  - reflexivity.
  - by_evaluation.
  - by_evaluation.
  - by_evaluation.
  - by_evaluation.
  - lia.
  - vm_compute. discriminate.
  - reflexivity.
  - by_evaluation.
Defined.

Lemma clean_object_read_goes_to_data_block_witness :
  exists m',
    dequeue_read clean_read = Ok (1, m') /\
    submitted (ring (bs m'))
      = [SQE_READV 3 {| iov_base := OpBuf 0; iov_len := 1024 |}
           (16777216 + 4096 + 512) 1000] /\
    op_read_vec (op m')
      = [(512, {| iov_base := OpBuf 0; iov_len := 1024 |})] /\
    op_retval (op m') = 0 /\
    op_pending_ops (op m') = 1 /\
    op_buf (op m') = op_buf (op clean_read) /\
    callbacks m' = callbacks clean_read.
Proof.
  apply (clean_object_read_goes_to_data_block clean_read
           {| clean_version := 1; clean_state := ST_D_STABLE;
              clean_location := 4096 |}).
  - reflexivity.
  - repeat constructor.
  - vm_compute. discriminate.
  - reflexivity.
  - by_evaluation.
  - by_evaluation.
  - by_evaluation.
  - by_evaluation.
  - by_evaluation.
  - reflexivity.
Defined.

Lemma clean_object_read_waits_for_sqe_witness :
  exists m',
    dequeue_read clean_read_full_ring = Ok (0, m') /\
    op_wait_for (op m') = WAIT_SQE /\
    bs m' = bs clean_read_full_ring /\
    op_read_vec (op m') = [] /\
    op_buf (op m') = op_buf (op clean_read_full_ring) /\
    callbacks m' = callbacks clean_read_full_ring.
Proof.
  apply (clean_object_read_waits_for_sqe clean_read_full_ring
           {| clean_version := 1; clean_state := ST_D_STABLE;
              clean_location := 4096 |}).
  - reflexivity.
  - repeat constructor.
  - vm_compute. discriminate.
  - reflexivity.
  - by_evaluation.
  - by_evaluation.
  - by_evaluation.
  - by_evaluation.
  - by_evaluation.
Defined.

Lemma plain_read_never_waits_in_flight_witness :
  exists m',
    dequeue_read plain_read_in_flight = Ok (1, m') /\
    (op_wait_for (op m') = op_wait_for (op plain_read_in_flight) \/
     op_wait_for (op m') = WAIT_SQE).
Proof.
  eexists. split; [vm_compute; reflexivity|].
  apply (plain_read_never_waits_in_flight plain_read_in_flight 1).
  - vm_compute. discriminate.
  - vm_compute. reflexivity.
Defined.

Lemma dequeue_read_unallocated_witness :
  exists m',
    dequeue_read unallocated_read = Ok (1, m') /\
    op_buf (op m') = repeat 0 (length (op_buf (op unallocated_read))) /\
    op_retval (op m') = op_len (op unallocated_read) /\
    callbacks m' = callbacks unallocated_read ++ [op m'] /\
    bs m' = bs unallocated_read.
Proof.
  apply (dequeue_read_unallocated unallocated_read 0 (key oid1 1)
           (new_dirty ST_J_STABLE 4096 0 512)).
  - reflexivity.
  - reflexivity.
  - reflexivity.
  - reflexivity.
  - vm_compute. reflexivity.
  - by_evaluation.
Defined.

Lemma dequeue_read_without_io_witness :
  exists m',
    dequeue_read deleted_only_read = Ok (1, m') /\
    op_buf (op m') = repeat 0 (length (op_buf (op deleted_only_read))) /\
    op_retval (op m') = op_len (op deleted_only_read) /\
    callbacks m' = callbacks deleted_only_read ++ [op m'].
Proof.
  eexists. split; [vm_compute; reflexivity|].
  apply (dequeue_read_without_io deleted_only_read).
  - vm_compute. reflexivity.
  - vm_compute. reflexivity.
  - vm_compute. reflexivity.
  - by_evaluation.
Defined.

Lemma small_write_next_free_in_range_witness :
  exists m',
    dequeue_write_small 7 18995 2 sum_crc32 small_write_tail (Some 1%nat)
      = Ok (1, m') /\
    512 <= next_free (journal (bs m')) < journal_len (journal (bs m')).
Proof.
  eexists. split; [vm_compute; reflexivity|].
  apply (small_write_next_free_in_range 7 18995 2 sum_crc32
           small_write_tail (Some 1%nat)).
  - vm_compute. reflexivity.
  - by_evaluation.
  - by_evaluation.
  - by_evaluation.
Defined.

Lemma big_write_takes_first_free_block_witness :
  exists m' d,
    dequeue_write 15 7 18995 2 sum_crc32 big_write_second_free
      = Ok (1, m') /\
    nth_error (data_alloc (bs big_write_second_free)) 1 = Some false /\
    (forall j, (j < 1)%nat ->
               nth_error (data_alloc (bs big_write_second_free)) j
               = Some true) /\
    nth_error (data_alloc (bs m')) 1 = Some true /\
    (forall j, j <> 1%nat ->
               nth_error (data_alloc (bs m')) j
               = nth_error (data_alloc (bs big_write_second_free)) j) /\
    nth_error (dirty_db (bs big_write_second_free)) 2 = Some (key oid3 2, d) /\
    nth_error (dirty_db (bs m')) 2
      = Some (key oid3 2, set_location_state d 4096 15) /\
    sq (ring (bs m'))
      = [SQE_WRITEV 3 {| iov_base := OpBuf 0; iov_len := 4096 |}
           (16777216 + 4096) 1000] /\
    op_pending_ops (op m') = 1 /\
    journal (bs m') = journal (bs big_write_second_free) /\
    callbacks m' = callbacks big_write_second_free.
Proof.
  apply (big_write_takes_first_free_block 15 7 18995 2 sum_crc32
           big_write_second_free 1 2).
  - reflexivity.
  - reflexivity.
  - vm_compute. discriminate.
  - by_evaluation.
  - reflexivity.
Defined.

Lemma small_write_waits_for_sector_buffer_witness :
  dequeue_write 15 7 18995 2 sum_crc32 (small_write_crowded 1)
  = Ok (0, with_op (small_write_crowded 1)
             (set_wait_for (op (small_write_crowded 1))
                           WAIT_JOURNAL_BUFFER)).
Proof.
  apply (small_write_waits_for_sector_buffer 15 7 18995 2 sum_crc32
           (small_write_crowded 1)).
  - vm_compute. discriminate.
  - reflexivity.
Defined.

Lemma small_write_records_where_it_writes_witness :
  exists m' i k d s,
    dequeue_write_small 7 18995 2 sum_crc32 small_write_roomy (Some 1%nat)
      = Ok (1, m') /\
    Some 1%nat = Some i /\
    nth_error (dirty_db (bs small_write_roomy)) i = Some (k, d) /\
    nth_error (sector_info (journal (bs m')))
              (Z.to_nat (cur_sector (journal (bs m')))) = Some s /\
    exists placed,
      nth_error (dirty_db (bs m')) i
        = Some (k, set_location_state d placed 7) /\
      sq (ring (bs m'))
        = sq (ring (bs small_write_roomy))
          ++ [SQE_WRITEV (journal_fd (journal (bs small_write_roomy)))
                {| iov_base := SectorBuf
                                 (512 * cur_sector (journal (bs m')));
                   iov_len := 512 |}
                (u64 (journal_offset (journal (bs small_write_roomy))
                      + sector_offset s))
                (op_addr small_write_roomy);
              SQE_WRITEV (journal_fd (journal (bs small_write_roomy)))
                {| iov_base := OpBuf 0;
                   iov_len := op_len (op small_write_roomy) |}
                (u64 (journal_offset (journal (bs small_write_roomy))
                      + placed))
                (op_addr small_write_roomy)] /\
      op_pending_ops (op m') = 2 /\
      op_used_journal_sector (op m')
        = u64 (1 + cur_sector (journal (bs m'))).
Proof.
  eexists.
  destruct (small_write_records_where_it_writes 7 18995 2 sum_crc32
              small_write_roomy (Some 1%nat)
              (snd (match dequeue_write_small 7 18995 2 sum_crc32
                            small_write_roomy (Some 1%nat) with
                    | Ok p => p
                    | _ => (0, small_write_roomy)
                    end)))
    as (i & k & d & s & Hit & Hd & Hs & Hrest).
  - vm_compute. reflexivity.
  - exists i, k, d, s. split; [vm_compute; reflexivity|].
    split; [exact Hit|]. split; [exact Hd|]. split; [exact Hs|exact Hrest].
Defined.

Lemma small_write_pins_its_sector_witness :
  exists m' count,
    dequeue_write_small 7 18995 2 sum_crc32 small_write_roomy (Some 1%nat)
      = Ok (1, m') /\
    nth_error (map usage_count
                 (sector_info (journal (bs small_write_roomy))))
              (Z.to_nat (cur_sector (journal (bs m')))) = Some count /\
    map usage_count (sector_info (journal (bs m')))
    = list_set (map usage_count
                  (sector_info (journal (bs small_write_roomy))))
               (Z.to_nat (cur_sector (journal (bs m')))) (count + 1).
Proof.
  eexists.
  destruct (small_write_pins_its_sector 7 18995 2 sum_crc32
              small_write_roomy (Some 1%nat)
              (snd (match dequeue_write_small 7 18995 2 sum_crc32
                            small_write_roomy (Some 1%nat) with
                    | Ok p => p
                    | _ => (0, small_write_roomy)
                    end)))
    as (count & Hcount & Hmap).
  - vm_compute. reflexivity.
  - exists count. split; [vm_compute; reflexivity|].
    split; [exact Hcount|exact Hmap].
Defined.

Lemma parked_write_changes_no_index_witness :
  exists m',
    dequeue_write 15 7 18995 2 sum_crc32 (small_write_crowded 0)
      = Ok (0, m') /\
    journal (bs m') = journal (bs (small_write_crowded 0)) /\
    dirty_db (bs m') = dirty_db (bs (small_write_crowded 0)) /\
    data_alloc (bs m') = data_alloc (bs (small_write_crowded 0)) /\
    object_db (bs m') = object_db (bs (small_write_crowded 0)) /\
    callbacks m' = callbacks (small_write_crowded 0) /\
    set_wait_detail (set_wait_for (op m') 0) 0
    = set_wait_detail (set_wait_for (op (small_write_crowded 0)) 0) 0.
Proof.
  eexists. split; [vm_compute; reflexivity|].
  apply (parked_write_changes_no_index 15 7 18995 2 sum_crc32
           (small_write_crowded 0)).
  vm_compute. reflexivity.
Defined.

Lemma write_kinds_keep_to_their_region_witness :
  exists m',
    dequeue_write 15 7 18995 2 sum_crc32 small_write_roomy = Ok (1, m') /\
    (op_len (op small_write_roomy) = block_size (bs small_write_roomy) ->
     journal (bs m') = journal (bs small_write_roomy)) /\
    (op_len (op small_write_roomy) <> block_size (bs small_write_roomy) ->
     data_alloc (bs m') = data_alloc (bs small_write_roomy)) /\
    object_db (bs m') = object_db (bs small_write_roomy).
Proof.
  eexists. split; [vm_compute; reflexivity|].
  apply (write_kinds_keep_to_their_region 15 7 18995 2 sum_crc32
           small_write_roomy 1).
  vm_compute. reflexivity.
Defined.
